(** * GrocerySaver backend: a shallow embedding of the list handlers
      (backend/server.js), the List model (backend/DB_Models/list.js) and
      the token endpoints (backend/authenticator.js).

    Conventions of the embedding.
    - A JavaScript string is a [string]; a character is read as the code
      unit of the same number, so the model covers code units below 256.
      [trim] and [toLowerCase] follow ECMAScript on that range.
    - A JavaScript number is the [Z] it holds: the model covers the
      numbers that are integers.  A sum is rounded as binary64 rounds
      it ([JS.plus]); fractions and the infinities are not covered.
    - The fields of a request body have the types the schema names:
      a name or a unit is a string, a quantity is a number.  A body
      that carries another JSON type there (a quantity such as "2",
      a name such as 123, a unit such as 5) is not covered; the
      handlers accept such bodies, and what they do with them is
      outside the theorems below.
    - An ObjectId is a [nat]; route parameters are ids that already cast.
    - A handler is a function from the server state (the two collections
      and the ObjectId generator) and the request to a response and the
      next state.  An exception is a value of [exn]; a handler's
      try/catch maps it to its 500 response. *)

From stdpp Require Import base list strings.
From Stdlib Require Import ZArith Lia Ascii String.

Local Open Scope string_scope.
Local Open Scope Z_scope.

(* ================================================================== *)
(** ** JavaScript values as the handlers use them *)
(* ================================================================== *)

Module JS.

(** Exceptions that reach a handler's catch block. *)
Inductive exn : Type :=
| TypeError            (* property access on null or undefined *)
| InvalidItemFormat    (* new Error("Invalid item format") *)
| ValidationError      (* mongoose: a required path is empty *)
| DuplicateItemNames   (* the error of listSchema.pre('save') *)
| DuplicateKey         (* MongoDB error code 11000 *)
| JsonWebTokenError    (* jsonwebtoken: malformed token or bad signature *)
| TokenExpiredError.   (* jsonwebtoken: exp has passed *)

Inductive result (A : Type) : Type :=
| Ok (a : A)
| Throw (e : exn).
Arguments Ok {A} a.
Arguments Throw {A} e.

Definition bind {A B} (r : result A) (k : A -> result B) : result B :=
  match r with
  | Ok a => k a
  | Throw e => Throw e
  end.

Notation "'try!' x <- r ; k" := (bind r (fun x => k))
  (at level 10, x name, r at level 100, k at level 200).

(** WhiteSpace and LineTerminator code units below 256:
    TAB, LF, VT, FF, CR, SP and NBSP. *)
Definition isWhiteSpace (c : ascii) : bool :=
  let n := nat_of_ascii c in
  ((9 <=? n)%nat && (n <=? 13)%nat) || (n =? 32)%nat || (n =? 160)%nat.

(** Latin-1 lowercase mapping: A-Z and the letters U+00C0..U+00DE
    (U+00D7, the multiplication sign, is not a letter). *)
Definition toLowerChar (c : ascii) : ascii :=
  let n := nat_of_ascii c in
  if ((65 <=? n)%nat && (n <=? 90)%nat)
     || ((192 <=? n)%nat && (n <=? 222)%nat && negb (n =? 215)%nat)
  then ascii_of_nat (n + 32)
  else c.

Fixpoint toLowerCase (s : string) : string :=
  match s with
  | EmptyString => EmptyString
  | String c r => String (toLowerChar c) (toLowerCase r)
  end.

Definition isEmpty (s : string) : bool :=
  match s with
  | EmptyString => true
  | String _ _ => false
  end.

Fixpoint trimStart (s : string) : string :=
  match s with
  | EmptyString => EmptyString
  | String c r => if isWhiteSpace c then trimStart r else s
  end.

Fixpoint trimEnd (s : string) : string :=
  match s with
  | EmptyString => EmptyString
  | String c r =>
      let r' := trimEnd r in
      if isWhiteSpace c && isEmpty r' then EmptyString else String c r'
  end.

Definition trim (s : string) : string := trimEnd (trimStart s).

(** Truthiness of a string-valued property that may be absent:
    undefined, null and the empty string are falsy. *)
Definition truthy (o : option string) : bool :=
  match o with
  | Some s => negb (isEmpty s)
  | None => false
  end.

(** [a || b] on an optional string with a string default. *)
Definition orDefault (o : option string) (d : string) : string :=
  match o with
  | Some s => if isEmpty s then d else s
  | None => d
  end.

(** A numeric property of a JSON object: absent (undefined), null or a
    number. *)
Inductive NumField : Type :=
| NAbsent
| NNull
| NNum (n : Z).

(** The rounding of binary64 on integers: 53 significant bits, to
    nearest, ties to even.  An integer below 2^53 in magnitude is a
    double; a larger one is rounded to a multiple of the power of two
    that leaves 53 bits.  The exponent range is not part of the model
    (no result becomes Infinity). *)
Definition round53 (m : Z) : Z :=
  let a := Z.abs m in
  if a <? 2 ^ 53 then m
  else
    let e := Z.log2 a - 52 in
    let hi := a / 2 ^ e in
    let lo := a mod 2 ^ e in
    let half := 2 ^ (e - 1) in
    let hi' := if (half <? lo) || ((lo =? half) && Z.odd hi) then hi + 1 else hi in
    Z.sgn m * (hi' * 2 ^ e).

(** [a + b] on two numbers. *)
Definition plus (a b : Z) : Z := round53 (a + b).

#[global] Arguments round53 : simpl never.
#[global] Arguments plus : simpl never.

(** ToNumber; [None] is NaN. *)
Definition ToNumber (q : NumField) : option Z :=
  match q with
  | NAbsent => None
  | NNull => Some 0
  | NNum n => Some n
  end.

(** [q > 0] and [q <= 0]; every comparison with NaN is false. *)
Definition gt0 (q : NumField) : bool :=
  match ToNumber q with
  | Some n => 0 <? n
  | None => false
  end.

Definition le0 (q : NumField) : bool :=
  match ToNumber q with
  | Some n => n <=? 0
  | None => false
  end.

(** [q > 0 ? q : 1] *)
Definition positiveOrOne (q : NumField) : Z :=
  match q with
  | NNum n => if gt0 q then n else 1
  | _ => 1
  end.

(** [q == null] *)
Definition looseNull (q : NumField) : bool :=
  match q with
  | NNum _ => false
  | _ => true
  end.

(** Array.prototype.findIndex; [None] is -1. *)
Fixpoint findIndex {A} (p : A -> bool) (l : list A) : option nat :=
  match l with
  | [] => None
  | x :: r => if p x then Some O else S <$> findIndex p r
  end.

(** Array.prototype.indexOf on strings (strict equality); [None] is -1. *)
Definition indexOf (x : string) (l : list string) : option nat :=
  findIndex (String.eqb x) l.

(** Array.prototype.some with the (element, index) callback, from
    index [i]. *)
Fixpoint someFrom {A} (p : A -> nat -> bool) (i : nat) (l : list A) : bool :=
  match l with
  | [] => false
  | x :: r => p x i || someFrom p (S i) r
  end.

Definition some {A} (p : A -> nat -> bool) (l : list A) : bool := someFrom p O l.

End JS.

Import JS.

(* ================================================================== *)
(** ** backend/DB_Models: the documents and the save-time checks *)
(* ================================================================== *)

Definition ObjectId := nat.
Bind Scope nat_scope with ObjectId.

Module Models.

(** An element of [items] in listSchema. *)
Record Item : Type := mkItem {
  i_id : ObjectId;
  i_name : string;
  i_quantity : Z;
  i_unit : string;
  i_isCompleted : bool
}.

(** A document of the List model. *)
Record ListDoc : Type := mkList {
  l_id : ObjectId;
  l_name : string;
  l_categoryId : ObjectId;
  l_userId : ObjectId;
  l_items : list Item
}.

(** A document of the Category model. *)
Record Category : Type := mkCategory {
  c_id : ObjectId;
  c_name : string;
  c_userId : ObjectId
}.

Definition set_items (l : ListDoc) (items : list Item) : ListDoc :=
  mkList (l_id l) (l_name l) (l_categoryId l) (l_userId l) items.

(** items.name is [required: true]: mongoose rejects the empty string. *)
Definition validateItems (items : list Item) : result unit :=
  if forallb (fun it => negb (isEmpty (i_name it))) items
  then Ok tt
  else Throw ValidationError.

(** listSchema.pre('save'), list.js lines 18-27. *)
Definition itemNames (items : list Item) : list string :=
  map (fun item => toLowerCase (i_name item)) items.

Definition hasDuplicates (items : list Item) : bool :=
  let names := itemNames items in
  some (fun name idx =>
          negb (bool_decide (indexOf name names = Some idx)))
       names.

Definition preSave (items : list Item) : result unit :=
  if hasDuplicates items then Throw DuplicateItemNames else Ok tt.

(** What [doc.save()] runs before the write: validation, then the
    pre-save hook. *)
Definition beforeSave (items : list Item) : result unit :=
  try! _ <- validateItems items; preSave items.

End Models.
Import Models.

(* ================================================================== *)
(** ** backend/server.js: the list and category handlers *)
(* ================================================================== *)

Module Server.

(** The two collections, in insertion order, and the ObjectId
    generator. *)
Record State : Type := mkState {
  categories : list Category;
  lists : list ListDoc;
  nextId : ObjectId
}.

(** An element of the [items] array of a request body.  The fields of
    an object have the types the schema gives them: [name] and [unit]
    strings, [quantity] a number; each may be absent, and [quantity]
    may be null.  The handlers do not check these types, and an
    object with a field of another type has no term here: not
    [{name: "milk", quantity: "2"}], for which [+=] concatenates, not
    [{name: 123}], on which the merge's [trim] call raises, and not
    [{name: "rice", unit: 5}], which the schema casts when the list
    is saved. *)
Inductive Descriptor : Type :=
| DString (s : string)
| DObject (name : option string) (quantity : NumField) (unit : option string)
| DNull
| DNumber (n : Z)
| DBool (b : bool)
| DArray.

(** The plain object [formatted] / an element of [formattedItems]. *)
Record Formatted : Type := mkFormatted {
  f_name : string;
  f_quantity : Z;
  f_unit : string;
  f_isCompleted : bool
}.

(** An element of [unitConflicts]. *)
Record Conflict : Type := mkConflict {
  k_name : string;
  k_existingUnit : string;
  k_newUnit : string
}.

(** The [updatedItem] object of the update-item request body. *)
Record ItemUpdate : Type := mkItemUpdate {
  u_name : option string;
  u_quantity : NumField;
  u_unit : option string
}.

Inductive Body : Type :=
| ErrorBody (message : string)                          (* status: 'error' *)
| ConflictBody (message : string) (conflicts : list Conflict)
| Plain (message : string)                              (* message only *)
| ListsData (data : list ListDoc)
| ListData (message : string) (data : ListDoc)
| NoData (message : string)                             (* status: 'success' *)
| ItemData (message : string) (updatedItem : Item).

Record Response : Type := mkResponse {
  status : nat;
  body : Body
}.

(** *** Collection operations *)

Definition findById (listID : ObjectId) (st : State) : option ListDoc :=
  List.find (fun l => Nat.eqb (l_id l) listID) (lists st).

Fixpoint deleteFirst {A} (p : A -> bool) (l : list A) : list A :=
  match l with
  | [] => []
  | x :: r => if p x then r else x :: deleteFirst p r
  end.

Fixpoint replaceFirst {A} (p : A -> bool) (y : A) (l : list A) : list A :=
  match l with
  | [] => []
  | x :: r => if p x then y :: r else x :: replaceFirst p y r
  end.

(** [doc.save()] on a document that was loaded from the collection. *)
Definition save (doc : ListDoc) (st : State) : result State :=
  try! _ <- beforeSave (l_items doc);
  Ok (mkState (categories st)
              (replaceFirst (fun l => Nat.eqb (l_id l) (l_id doc)) doc (lists st))
              (nextId st)).

(** [doc.save()] on a new document; the unique index on (name, userId)
    answers with error code 11000. *)
Definition insert (doc : ListDoc) (st : State) : result State :=
  try! _ <- beforeSave (l_items doc);
  if existsb (fun l => String.eqb (l_name l) (l_name doc)
                       && Nat.eqb (l_userId l) (l_userId doc)) (lists st)
  then Throw DuplicateKey
  else Ok (mkState (categories st) (lists st ++ [doc]) (nextId st)).

Definition withNextId (st : State) (n : ObjectId) : State :=
  mkState (categories st) (lists st) n.

(** *** 2. GET /api/fetch-lists/:categoryId (lines 78-87) *)

Definition fetchLists (st : State) (userId categoryId : ObjectId) : Response * State :=
  let found := List.filter (fun l => Nat.eqb (l_categoryId l) categoryId
                                && Nat.eqb (l_userId l) userId) (lists st) in
  (mkResponse 200 (ListsData found), st).

(** *** 5. DELETE /api/categories/:categoryId (lines 128-143) *)

Definition deleteCategory (st : State) (userId categoryId : ObjectId) : Response * State :=
  let lists' := List.filter (fun l => negb (Nat.eqb (l_categoryId l) categoryId)) (lists st) in
  let categories' := deleteFirst (fun c => Nat.eqb (c_id c) categoryId) (categories st) in
  (mkResponse 200 (Plain "Category and its lists deleted successfully."),
   mkState categories' lists' (nextId st)).

(** *** 6. POST /api/categories/:categoryId/lists (lines 149-209) *)

Definition formatNew (item : Descriptor) : result Formatted :=
  match item with
  | DString s => Ok (mkFormatted s 1 "pcs" false)
  | DNull => Throw TypeError                 (* typeof null is 'object' *)
  | DObject name quantity unit =>
      match name with
      | Some n =>
          if isEmpty n then Throw InvalidItemFormat
          else Ok (mkFormatted n
                     (positiveOrOne quantity)
                     (orDefault unit "pcs")
                     (le0 quantity))
      | None => Throw InvalidItemFormat
      end
  | DNumber _ | DBool _ | DArray => Throw InvalidItemFormat
  end.

Fixpoint mapM {A B} (f : A -> result B) (l : list A) : result (list B) :=
  match l with
  | [] => Ok []
  | x :: r => try! y <- f x; try! ys <- mapM f r; Ok (y :: ys)
  end.

(** Casting plain objects to subdocuments gives each one an _id. *)
Fixpoint cast (n : ObjectId) (fs : list Formatted) : list Item :=
  match fs with
  | [] => []
  | f :: r => mkItem n (f_name f) (f_quantity f) (f_unit f) (f_isCompleted f)
              :: cast (S n) r
  end.

Definition addList (st : State) (userId categoryId : ObjectId)
    (name : option string) (items : option (list Descriptor)) : Response * State :=
  match items with
  | Some (d :: ds) =>
      if negb (truthy name)
      then (mkResponse 400 (ErrorBody "List name and items are required"), st)
      else
        let attempt :=
          try! formattedItems <- mapM formatNew (d :: ds);
          let newList := mkList (nextId st) (orDefault name "") categoryId userId
                           (cast (S (nextId st)) formattedItems) in
          try! st' <- insert newList
                        (withNextId st (S (nextId st) + List.length formattedItems)%nat);
          Ok (newList, st') in
        match attempt with
        | Ok (newList, st') =>
            (mkResponse 201 (ListData "List added successfully" newList), st')
        | Throw DuplicateKey =>
            (mkResponse 409
               (ErrorBody "A list with this name already exists in the selected category."), st)
        | Throw InvalidItemFormat =>
            (mkResponse 400 (ErrorBody "One or more items have invalid format."), st)
        | Throw _ => (mkResponse 500 (ErrorBody "Error adding list"), st)
        end
  | _ => (mkResponse 400 (ErrorBody "List name and items are required"), st)
  end.

(** *** 7. DELETE /api/delete-lists/:listId (lines 215-231) *)

Definition deleteList (st : State) (userId listId : ObjectId) : Response * State :=
  match findById listId st with
  | None => (mkResponse 404 (ErrorBody "List not found"), st)
  | Some _ =>
      (mkResponse 200 (NoData "List deleted successfully"),
       mkState (categories st)
               (deleteFirst (fun l => Nat.eqb (l_id l) listId) (lists st))
               (nextId st))
  end.

(** *** 8. DELETE /api/delete/:listId/item/:itemId (lines 237-258) *)

Definition deleteItem (st : State) (userId listId itemId : ObjectId) : Response * State :=
  let sel := fun l => Nat.eqb (l_id l) listId && Nat.eqb (l_userId l) userId in
  match List.find sel (lists st) with
  | None => (mkResponse 404 (ErrorBody "List not found or item not found"), st)
  | Some l =>
      let updatedList :=
        set_items l (List.filter (fun it => negb (Nat.eqb (i_id it) itemId)) (l_items l)) in
      (mkResponse 200 (ListData "Item deleted successfully" updatedList),
       mkState (categories st) (replaceFirst sel updatedList (lists st)) (nextId st))
  end.

(** [items.id(itemId)]: the subdocument with that _id, with its index. *)
Definition itemById (itemId : ObjectId) (items : list Item) : option (nat * Item) :=
  match findIndex (fun it => Nat.eqb (i_id it) itemId) items with
  | Some i => (fun it => (i, it)) <$> items !! i
  | None => None
  end.

(** *** 9. PATCH /api/items/:itemId/toggle (lines 264-284) *)

Definition toggle (st : State) (userId itemId : ObjectId) : Response * State :=
  match List.find (fun l => existsb (fun it => Nat.eqb (i_id it) itemId) (l_items l))
                  (lists st) with
  | None => (mkResponse 404 (Plain "Item not found"), st)
  | Some list =>
      let attempt :=
        match itemById itemId (l_items list) with
        | None => Throw TypeError
        | Some (i, item) =>
            let item' := mkItem (i_id item) (i_name item) (i_quantity item)
                           (i_unit item) (negb (i_isCompleted item)) in
            try! st' <- save (set_items list (<[i:=item']> (l_items list))) st;
            Ok (item', st')
        end in
      match attempt with
      | Ok (item', st') => (mkResponse 200 (ItemData "Item toggled successfully" item'), st')
      | Throw _ => (mkResponse 500 (Plain "Error toggling item"), st)
      end
  end.

(** *** 10. PATCH /api/updatelist/:listID (lines 289-375) *)

(** Lines 309-322: [Ok None] is the [continue] branch. *)
Definition formatMerge (newItem : Descriptor) : result (option Formatted) :=
  match newItem with
  | DString s => Ok (Some (mkFormatted (trim s) 1 "pcs" false))
  | DNull => Throw TypeError                 (* typeof null is 'object' *)
  | DObject name quantity unit =>
      match name with
      | Some n =>
          if isEmpty n then Ok None
          else Ok (Some (mkFormatted (trim n)
                           (positiveOrOne quantity)
                           (orDefault unit "pcs")
                           (le0 quantity)))
      | None => Ok None
      end
  | DNumber _ | DBool _ | DArray => Ok None
  end.

(** The variables the loop updates: the document array, the conflicts
    and the ObjectId generator. *)
Record Acc : Type := mkAcc {
  existingItems : list Item;
  unitConflicts : list Conflict;
  gen : ObjectId
}.

Definition sameName (nameLower : string) (item : Item) : bool :=
  String.eqb (toLowerCase (trim (i_name item))) nameLower.

(** Lines 324-349, for one formatted descriptor. *)
Definition reconcile (acc : Acc) (formatted : Formatted) : result Acc :=
  let nameLower := toLowerCase (f_name formatted) in
  let exactMatchIndex :=
    findIndex (fun item => sameName nameLower item
                           && String.eqb (i_unit item) (f_unit formatted))
              (existingItems acc) in
  let nameConflictIndex :=
    findIndex (fun item => sameName nameLower item
                           && negb (String.eqb (i_unit item) (f_unit formatted)))
              (existingItems acc) in
  match exactMatchIndex with
  | Some i =>
      match existingItems acc !! i with
      | Some it =>
          let it' := mkItem (i_id it) (i_name it)
                       (plus (i_quantity it) (f_quantity formatted))
                       (i_unit it) (i_isCompleted it) in
          Ok (mkAcc (<[i:=it']> (existingItems acc)) (unitConflicts acc) (gen acc))
      | None => Throw TypeError
      end
  | None =>
      match nameConflictIndex with
      | Some j =>
          match existingItems acc !! j with
          | Some it =>
              Ok (mkAcc (existingItems acc)
                        (unitConflicts acc ++
                           [mkConflict (f_name formatted) (i_unit it) (f_unit formatted)])
                        (gen acc))
          | None => Throw TypeError
          end
      | None =>
          Ok (mkAcc (existingItems acc ++
                       [mkItem (gen acc) (f_name formatted) (f_quantity formatted)
                               (f_unit formatted) (f_isCompleted formatted)])
                    (unitConflicts acc)
                    (S (gen acc)))
      end
  end.

(** One iteration of the loop of lines 308-350. *)
Definition mergeOne (acc : Acc) (newItem : Descriptor) : result Acc :=
  try! fo <- formatMerge newItem;
  match fo with
  | None => Ok acc
  | Some formatted => reconcile acc formatted
  end.

Fixpoint mergeLoop (acc : Acc) (items : list Descriptor) : result Acc :=
  match items with
  | [] => Ok acc
  | newItem :: rest => try! acc' <- mergeOne acc newItem; mergeLoop acc' rest
  end.

(** The template literal of line 356 prints each conflict object as
    [object Object]. *)
Definition conflictMessage (cs : list Conflict) : string :=
  "Unit conflict detected for items:"
  ++ String.concat "," (map (fun _ => "[object Object]") cs).

(** Ids drawn for subdocuments that are never written are not counted:
    a request that writes nothing returns the state it received. *)
Definition updatelist (st : State) (userId listID : ObjectId)
    (items : option (list Descriptor)) : Response * State :=
  match items with
  | Some (d :: ds) =>
      match findById listID st with
      | None => (mkResponse 404 (ErrorBody "List not found"), st)
      | Some list =>
          match mergeLoop (mkAcc (l_items list) [] (nextId st)) (d :: ds) with
          | Throw _ => (mkResponse 500 (ErrorBody "Error updating list"), st)
          | Ok acc =>
              match unitConflicts acc with
              | _ :: _ =>
                  (mkResponse 400
                     (ConflictBody (conflictMessage (unitConflicts acc)) (unitConflicts acc)),
                   st)
              | [] =>
                  let updatedList := set_items list (existingItems acc) in
                  match save updatedList (withNextId st (gen acc)) with
                  | Ok st' =>
                      (mkResponse 200 (ListData "List updated successfully" updatedList), st')
                  | Throw _ => (mkResponse 500 (ErrorBody "Error updating list"), st)
                  end
              end
          end
      end
  | _ => (mkResponse 400 (ErrorBody "List ID and items are required"), st)
  end.

(** *** 11. PATCH /api/updateItem/:listID/:itemID (lines 381-440) *)

Definition numValue (q : NumField) : Z :=
  match q with
  | NNum n => n
  | _ => 0
  end.

Definition updateItem (st : State) (userId listID itemID : ObjectId)
    (updatedItem : option ItemUpdate) : Response * State :=
  match updatedItem with
  | None => (mkResponse 400 (ErrorBody "Incomplete item data"), st)
  | Some u =>
      if negb (truthy (u_name u)) || looseNull (u_quantity u) || negb (truthy (u_unit u))
      then (mkResponse 400 (ErrorBody "Incomplete item data"), st)
      else
        match findById listID st with
        | None => (mkResponse 404 (ErrorBody "List not found"), st)
        | Some list =>
            let newName := orDefault (u_name u) "" in
            let currentItem :=
              List.find (fun item => Nat.eqb (i_id item) itemID) (l_items list) in
            let normalizedNewName := toLowerCase (trim newName) in
            let normalizedCurrentName :=
              (fun item => toLowerCase (trim (i_name item))) <$> currentItem in
            let hasDuplicate :=
              existsb (fun item => negb (Nat.eqb (i_id item) itemID)
                                   && String.eqb (toLowerCase (trim (i_name item)))
                                                 normalizedNewName)
                      (l_items list) in
            if (if negb (bool_decide (Some normalizedNewName = normalizedCurrentName))
                then hasDuplicate
                else false)
            then (mkResponse 400
                    (ErrorBody "Item name already exists in the list (case-insensitive)"), st)
            else
              match itemById itemID (l_items list) with
              | None => (mkResponse 404 (ErrorBody "Item not found in the list"), st)
              | Some (i, itemToUpdate) =>
                  let item' := mkItem (i_id itemToUpdate) newName (numValue (u_quantity u))
                                 (orDefault (u_unit u) "") (i_isCompleted itemToUpdate) in
                  let list' := set_items list (<[i:=item']> (l_items list)) in
                  match save list' st with
                  | Ok st' => (mkResponse 200 (ListData "Item updated successfully" list'), st')
                  | Throw _ => (mkResponse 500 (ErrorBody "Error updating item"), st)
                  end
              end
        end
  end.

End Server.

(* ================================================================== *)
(** ** backend/authenticator.js: tokens, signin and refresh *)
(* ================================================================== *)

Module Authenticator.

(** process.env as the module reads it. *)
Record Config : Type := mkConfig {
  ACCESS_TOKEN_SECRET : string;
  REFRESH_TOKEN_SECRET : string;
  production : bool                  (* NODE_ENV === 'production' *)
}.

(** Modelled from the spec: backend/DB_Models/user.js is not among the
    sources; a User is an identity record with a unique username, a
    unique email and a salted password hash, and the handlers read
    exactly these fields. *)
Record User : Type := mkUser {
  user_id : ObjectId;
  username : string;
  email : string;
  password : string
}.

(** The claims of a token; [iat] and [exp] are seconds. *)
Record Payload : Type := mkPayload {
  p_userId : ObjectId;
  p_email : option string;           (* undefined when not signed in *)
  p_iat : Z;
  p_exp : Z
}.

(** A token string: either the signature of a payload under a key, or
    any other string. *)
Inductive Token : Type :=
| Signed (key : string) (payload : Payload)
| Other (raw : string).

(** jwt.sign(claims, secret, { expiresIn }) at time [now]. *)
Definition sign (userId : ObjectId) (mail : option string)
    (secret : string) (expiresIn now : Z) : Token :=
  Signed secret (mkPayload userId mail now (now + expiresIn)).

(** jwt.verify(token, secret) at time [now]. *)
Definition verify (token : Token) (secret : string) (now : Z) : result Payload :=
  match token with
  | Signed key payload =>
      if String.eqb key secret
      then if p_exp payload <=? now then Throw TokenExpiredError else Ok payload
      else Throw JsonWebTokenError
  | Other _ => Throw JsonWebTokenError
  end.

(** [!token] for a token that may be absent. *)
Definition missing (t : option Token) : bool :=
  match t with
  | None => true
  | Some (Other raw) => isEmpty raw
  | Some (Signed _ _) => false
  end.

Inductive SameSite : Type := Strict | Lax.

Inductive CookieOp : Type :=
| NoCookie
| SetRefreshToken (value : Token) (httpOnly secure : bool) (sameSite : SameSite) (maxAge : Z)
| ClearRefreshToken (httpOnly secure : bool) (sameSite : SameSite).

Inductive Body : Type :=
| ErrorBody (message : string)
| Login (message : string) (accessToken : Token) (id : ObjectId) (name mail : string)
| Refreshed (accessToken : Token)
| Success (message : string).

Record Response : Type := mkResponse {
  status : nat;
  body : Body;
  cookie : CookieOp
}.

(** req.user *)
Record ReqUser : Type := mkReqUser {
  userId : ObjectId;
  userEmail : option string
}.

(** authenticateToken (lines 22-50); [bearer] is the second word of
    the Authorization header.  [inr] is the call of next(). *)
Definition authenticateToken (cfg : Config) (now : Z) (bearer : option Token)
    : Response + ReqUser :=
  if missing bearer
  then inl (mkResponse 401 (ErrorBody "Authentication token missing") NoCookie)
  else
    match bearer with
    | Some token =>
        match verify token (ACCESS_TOKEN_SECRET cfg) now with
        | Ok decoded => inr (mkReqUser (p_userId decoded) (p_email decoded))
        | Throw _ => inl (mkResponse 401 (ErrorBody "Invalid or expired access token") NoCookie)
        end
    | None => inl (mkResponse 401 (ErrorBody "Authentication token missing") NoCookie)
    end.

Section Signin.

(** bcrypt.compare(password, hash) *)
Variable compare : string -> string -> bool.

(** POST /signin (lines 145-210) *)
Definition signin (cfg : Config) (now : Z) (users : list User)
    (mail pass : option string) : Response :=
  if negb (truthy mail) || negb (truthy pass)
  then mkResponse 400 (ErrorBody "Email and password are required") NoCookie
  else
    match List.find (fun u => String.eqb (email u) (orDefault mail "")) users with
    | None => mkResponse 401 (ErrorBody "No account exists with this email") NoCookie
    | Some user =>
        if negb (compare (orDefault pass "") (password user))
        then mkResponse 401 (ErrorBody "Incorrect password") NoCookie
        else
          let accessToken :=
            sign (user_id user) (Some (email user)) (ACCESS_TOKEN_SECRET cfg) 60 now in
          let refreshToken :=
            sign (user_id user) None (REFRESH_TOKEN_SECRET cfg) (7 * 24 * 60 * 60) now in
          mkResponse 200
            (Login "Login successful" accessToken (user_id user) (username user) (email user))
            (SetRefreshToken refreshToken true (production cfg)
               (if production cfg then Strict else Lax)
               (7 * 24 * 60 * 60 * 1000))
    end.

End Signin.

(** GET /refresh-token (lines 213-241); [refreshToken] is
    req.cookies.refreshToken. *)
Definition refresh (cfg : Config) (now : Z) (refreshToken : option Token) : Response :=
  if missing refreshToken
  then mkResponse 401 (ErrorBody "Refresh token missing") NoCookie
  else
    match refreshToken with
    | Some token =>
        match verify token (REFRESH_TOKEN_SECRET cfg) now with
        | Ok decoded =>
            let newAccessToken :=
              sign (p_userId decoded) None (ACCESS_TOKEN_SECRET cfg) (15 * 60) now in
            mkResponse 200 (Refreshed newAccessToken) NoCookie
        | Throw _ => mkResponse 403 (ErrorBody "Invalid or expired refresh token") NoCookie
        end
    | None => mkResponse 401 (ErrorBody "Refresh token missing") NoCookie
    end.

End Authenticator.

(* ================================================================== *)
(** ** Concrete stores and requests used by the examples *)
(* ================================================================== *)

Module Scenario.
Import Server Authenticator.

Definition alice : ObjectId := 1.
Definition bob : ObjectId := 2.

(** Bob owns category 10 and, in it, list 20 with one item. *)
Definition bobStore : State :=
  mkState [mkCategory 10 "Dairy" bob]
          [mkList 20 "Weekly" 10 bob [mkItem 30 "milk" 1 "L" false]]
          100.

(** The list of the rename example: "Milk" next to another "milk". *)
Definition milkStore : State :=
  mkState [mkCategory 10 "Dairy" bob]
          [mkList 20 "Weekly" 10 bob
             [mkItem 30 "Milk" 1 "L" false; mkItem 31 "milk" 2 "L" false]]
          100.

(** A list that two saves produce: "milk " next to "milk". *)
Definition spacedStore : State :=
  mkState [mkCategory 10 "Dairy" bob]
          [mkList 20 "Weekly" 10 bob
             [mkItem 30 "milk " 1 "L" false; mkItem 31 "milk" 2 "L" false]]
          100.


Definition noLists : State := mkState [mkCategory 10 "Dairy" bob] [] 100.

Definition cfg : Config := mkConfig "access-secret" "refresh-secret" false.

Definition bobUser : User := mkUser bob "bob" "bob@example.com" "hash(hunter2)".

(** A stand-in for bcrypt.compare. *)
Definition compare (pass hash : string) : bool :=
  String.eqb hash ("hash(" ++ pass ++ ")").

(** The refresh token a signin at time 1000 puts in the cookie. *)
Definition bobRefresh : Token := sign bob None (REFRESH_TOKEN_SECRET cfg) (7 * 24 * 60 * 60) 1000.

End Scenario.

(* ================================================================== *)
(** ** Terms of the statements *)
(* ================================================================== *)

Module Terms.
Import Server.

(** The trimmed, lowercased name of the item with id [itemID], if the
    list has one: [normalizedCurrentName]. *)
Definition currentKey (itemID : ObjectId) (items : list Item) : option string :=
  (fun item => toLowerCase (trim (i_name item)))
    <$> List.find (fun item => Nat.eqb (i_id item) itemID) items.

(** The descriptors of the [continue] branch: numbers, booleans,
    arrays, and objects whose name is absent or empty. *)
Definition skipped (d : Descriptor) : bool :=
  match d with
  | DNumber _ | DBool _ | DArray => true
  | DObject name _ _ => negb (truthy name)
  | DString _ | DNull => false
  end.

(** What a descriptor supplies: a bare name supplies neither a
    quantity nor a unit. *)
Definition suppliedName (d : Descriptor) : option string :=
  match d with
  | DString s => Some s
  | DObject name _ _ => name
  | _ => None
  end.

Definition suppliedQuantity (d : Descriptor) : NumField :=
  match d with
  | DObject _ quantity _ => quantity
  | _ => NAbsent
  end.

Definition suppliedUnit (d : Descriptor) : option string :=
  match d with
  | DObject _ _ unit => unit
  | _ => None
  end.


(** [it] with [q] added to its quantity and nothing else changed. *)
Definition accumulate (it : Item) (q : Z) : Item :=
  mkItem (i_id it) (i_name it) (plus (i_quantity it) q) (i_unit it) (i_isCompleted it).

(** Three merge requests in a row, each with the one descriptor [d];
    the answer is that of the third. *)
Definition mergeThrice (st : State) (userId listID : ObjectId) (d : Descriptor)
    : Response * State :=
  let st1 := (updatelist st userId listID (Some [d])).2 in
  let st2 := (updatelist st1 userId listID (Some [d])).2 in
  updatelist st2 userId listID (Some [d]).

End Terms.

(* ================================================================== *)
(** ** The routes of server.js as one transition function *)
(* ================================================================== *)

Module Api.
Import Server.

(** A request to one of the list routes, with the user id that
    authenticateToken put in req.user. *)
Inductive Request : Type :=
| FetchLists (userId categoryId : ObjectId)
| DeleteCategory (userId categoryId : ObjectId)
| AddList (userId categoryId : ObjectId) (name : option string)
          (items : option (list Descriptor))
| DeleteList (userId listId : ObjectId)
| DeleteItem (userId listId itemId : ObjectId)
| Toggle (userId itemId : ObjectId)
| UpdateList (userId listID : ObjectId) (items : option (list Descriptor))
| UpdateItem (userId listID itemID : ObjectId) (updatedItem : option ItemUpdate).

Definition handle (st : State) (r : Request) : Response * State :=
  match r with
  | FetchLists userId categoryId => fetchLists st userId categoryId
  | DeleteCategory userId categoryId => deleteCategory st userId categoryId
  | AddList userId categoryId name items => addList st userId categoryId name items
  | DeleteList userId listId => deleteList st userId listId
  | DeleteItem userId listId itemId => deleteItem st userId listId itemId
  | Toggle userId itemId => toggle st userId itemId
  | UpdateList userId listID items => updatelist st userId listID items
  | UpdateItem userId listID itemID updatedItem =>
      updateItem st userId listID itemID updatedItem
  end.

(** The store after a sequence of requests. *)
Fixpoint run (st : State) (rs : list Request) : State :=
  match rs with
  | [] => st
  | r :: rest => run (handle st r).2 rest
  end.

(** The comparison key of the handlers: the name, trimmed and
    lowercased. *)
Definition key (item : Item) : string := toLowerCase (trim (i_name item)).

Definition itemKeys (items : list Item) : list string := map key items.

(** What the two checks of [doc.save()] accept. *)
Definition guarded (items : list Item) : Prop :=
  Forall (fun it => i_name it <> EmptyString) items /\ NoDup (itemNames items).

(** A store as the driver and the indexes keep it: _ids are unique and
    older than the generator, (name, userId) is unique, and every list
    passed the save-time checks. *)
Record WellFormed (st : State) : Prop := mkWellFormed {
  wf_ids : NoDup (map l_id (lists st));
  wf_fresh : Forall (fun l => (l_id l < nextId st)%nat) (lists st);
  wf_names : NoDup (map (fun l => (l_name l, l_userId l)) (lists st));
  wf_items : Forall (fun l => guarded (l_items l)) (lists st)
}.

(** [new] keeps every item of [old] at its index, with the same _id,
    name, unit and completion flag; the quantity is the one field
    that may differ. *)
Definition grows (old new : list Item) : Prop :=
  forall i it, old !! i = Some it ->
    exists it', new !! i = Some it'
      /\ i_id it' = i_id it /\ i_name it' = i_name it /\ i_unit it' = i_unit it
      /\ i_isCompleted it' = i_isCompleted it.

(** A conflict entry is justified by [items] when one of them has the
    entry's name as key and the entry's existing unit, and that unit
    is not the incoming one. *)
Definition justified (items : list Item) (c : Conflict) : Prop :=
  exists it, In it items
    /\ key it = toLowerCase (k_name c)
    /\ i_unit it = k_existingUnit c
    /\ k_existingUnit c <> k_newUnit c.

End Api.

(* ================================================================== *)
(** ** backend/authenticator.js: check-auth and logout *)
(* ================================================================== *)

Module Session.
Import Authenticator.

(** The body of GET /check-auth carries one flag. *)
Record AuthCheck : Type := mkAuthCheck {
  ac_status : nat;
  isAuthenticated : bool
}.

(** GET /check-auth (lines 53-74).  Without a token the answer is sent
    with res.json alone, that is with status 200. *)
Definition checkAuth (cfg : Config) (now : Z) (bearer : option Token) : AuthCheck :=
  if missing bearer
  then mkAuthCheck 200 false
  else
    match bearer with
    | Some token =>
        match verify token (ACCESS_TOKEN_SECRET cfg) now with
        | Ok _ => mkAuthCheck 200 true
        | Throw _ => mkAuthCheck 401 false
        end
    | None => mkAuthCheck 200 false
    end.

(** POST /logout (lines 277-288) *)
Definition logout (cfg : Config) : Response :=
  mkResponse 200 (Success "Logged out successfully")
             (ClearRefreshToken true (production cfg) Strict).

End Session.

(* ================================================================== *)
(** ** Properties of the JavaScript helpers *)
(* ================================================================== *)

Import Server Terms.

Section Numbers.


Lemma round53_scale (a : Z) :
  2 ^ 53 <= a ->
  let e := Z.log2 a - 52 in
  0 < 2 ^ e /\ 0 < a / 2 ^ e.
Proof.
  intros Ha e. assert (H0 : 0 < a) by lia.
  destruct (Z.log2_spec a H0) as [Hlo _].
  assert (H53 : 53 <= Z.log2 a) by (apply Z.log2_le_pow2; lia).
  assert (He : 0 <= e) by (unfold e; lia).
  assert (Hp : 0 < 2 ^ e) by (apply Z.pow_pos_nonneg; lia).
  split; [exact Hp|].
  apply Z.div_str_pos. split; [exact Hp|].
  transitivity (2 ^ Z.log2 a); [|exact Hlo].
  apply Z.pow_le_mono_r; unfold e; lia.
Qed.

(** Rounding keeps the sign. *)
Lemma round53_sign (m : Z) :
  (0 < round53 m <-> 0 < m) /\ (round53 m = 0 <-> m = 0) /\ (round53 m < 0 <-> m < 0).
Proof.
  unfold round53. destruct (Z.ltb_spec (Z.abs m) (2 ^ 53)) as [Hlt|Hge]; [lia|].
  destruct (round53_scale (Z.abs m) Hge) as [Hp Hhi].
  set (e := Z.log2 (Z.abs m) - 52) in *.
  set (hi := Z.abs m / 2 ^ e) in *.
  match goal with
  | |- context [if ?b then hi + 1 else hi] => set (hi' := if b then hi + 1 else hi)
  end.
  assert (Hhi' : 0 < hi') by (unfold hi'; destruct (_ || _); lia).
  assert (Hpos : 0 < hi' * 2 ^ e) by (apply Z.mul_pos_pos; assumption).
  assert (Hm : m <> 0) by (intros ->; simpl in Hge; lia).
  destruct m as [|p|p]; [contradiction | |]; simpl Z.sgn; lia.
Qed.

End Numbers.

(** Three times 2^53 - 1: the second sum has 55 bits and is rounded
    down to a multiple of four. *)
Example plus_rounds :
  plus (plus 9007199254740991 9007199254740991) 9007199254740991 = 27021597764222972
  /\ 3 * 9007199254740991 = 27021597764222973.
Proof. split; reflexivity. Qed.

Section Strings.

Lemma trimEnd_idem (s : string) : trimEnd (trimEnd s) = trimEnd s.
Proof.
  induction s as [|c r IH]; simpl; [reflexivity|].
  destruct (isWhiteSpace c && isEmpty (trimEnd r)) eqn:E; simpl; [reflexivity|].
  rewrite IH, E. reflexivity.
Qed.

Lemma trimStart_head (s : string) :
  trimStart s = EmptyString
  \/ exists c r, trimStart s = String c r /\ isWhiteSpace c = false.
Proof.
  induction s as [|c r IH]; simpl; [now left|].
  destruct (isWhiteSpace c) eqn:E; [exact IH|].
  right. exists c, r. split; [reflexivity | exact E].
Qed.

Lemma trimStart_trim (s : string) : trimStart (trim s) = trim s.
Proof.
  unfold trim. destruct (trimStart_head s) as [-> | (c & r & -> & Hc)].
  - reflexivity.
  - simpl. rewrite Hc. simpl. rewrite Hc. reflexivity.
Qed.

(** Trimming twice is trimming once: a stored name that came out of
    [trim] is its own comparison key up to case. *)
Lemma trim_idem (s : string) : trim (trim s) = trim s.
Proof.
  unfold trim at 1. rewrite trimStart_trim. unfold trim. apply trimEnd_idem.
Qed.

Lemma isEmpty_true (s : string) : isEmpty s = true <-> s = EmptyString.
Proof. destruct s; simpl; split; congruence. Qed.

Lemma isEmpty_false (s : string) : isEmpty s = false <-> s <> EmptyString.
Proof. destruct s; simpl; split; congruence. Qed.

End Strings.

Example trim_example : trim "  Milk 2% " = "Milk 2%".
Proof. reflexivity. Qed.

Example toLowerCase_example : toLowerCase "Milk " = "milk ".
Proof. reflexivity. Qed.

(* ================================================================== *)
(** ** Ownership: which handlers filter by the authenticated user *)
(* ================================================================== *)

Section Ownership.
Import Scenario.

(** The five handlers never read [req.user.userId]: the answer and the
    next state are the same whoever is signed in. *)
Lemma handlers_ignore_user (st : State) (u v : ObjectId) :
  (forall itemId, toggle st u itemId = toggle st v itemId)
  /\ (forall listID items, updatelist st u listID items = updatelist st v listID items)
  /\ (forall categoryId, deleteCategory st u categoryId = deleteCategory st v categoryId)
  /\ (forall listId, deleteList st u listId = deleteList st v listId)
  /\ (forall listID itemID upd,
        updateItem st u listID itemID upd = updateItem st v listID itemID upd).
Proof. repeat split. Qed.

Lemma find_none_iff {A} (p : A -> bool) (l : list A) :
  List.find p l = None <-> forall x, In x l -> p x = false.
Proof.
  split.
  - intros H x Hx. exact (find_none p l H x Hx).
  - induction l as [|a r IH]; simpl; intros H; [reflexivity|].
    rewrite (H a (or_introl eq_refl)). apply IH. intros x Hx. apply H. now right.
Qed.

(** The sibling handler, delete-item, does filter by the user: on a
    list of somebody else it answers 404 and writes nothing. *)
Lemma deleteItem_scoped (st : State) (userId listId itemId : ObjectId) :
  (forall l, In l (lists st) -> l_id l = listId -> l_userId l <> userId) ->
  deleteItem st userId listId itemId
  = (mkResponse 404 (ErrorBody "List not found or item not found"), st).
Proof.
  intros Hown. unfold deleteItem.
  replace (List.find _ (lists st)) with (@None ListDoc); [reflexivity|].
  symmetry. apply find_none_iff. intros l Hl.
  destruct (Nat.eqb_spec (l_id l) listId) as [E|E]; simpl; [|reflexivity].
  apply Nat.eqb_neq. now apply Hown.
Qed.

(** C1. Signed in as alice, each of the five mutating handlers finds
    bob's list (or category) and changes it: toggle flips his item,
    the merge appends to his list, delete-category and delete-list
    remove his documents, update-item renames his item.  None of the
    queries carries the user id, and none answers 404. *)
Theorem cross_user_requests_mutate :
  l_userId <$> findById 20 bobStore = Some bob /\ alice <> bob
  /\ (let '(r, st') := toggle bobStore alice 30 in
      status r = 200%nat
      /\ l_items <$> findById 20 st' = Some [mkItem 30 "milk" 1 "L" true])
  /\ (let '(r, st') := updatelist bobStore alice 20 (Some [DString "eggs"]) in
      status r = 200%nat
      /\ l_items <$> findById 20 st'
         = Some [mkItem 30 "milk" 1 "L" false; mkItem 100 "eggs" 1 "pcs" false])
  /\ (let '(r, st') := deleteCategory bobStore alice 10 in
      status r = 200%nat /\ categories st' = [] /\ lists st' = [])
  /\ (let '(r, st') := deleteList bobStore alice 20 in
      status r = 200%nat /\ lists st' = [])
  /\ (let '(r, st') := updateItem bobStore alice 20 30
                         (Some (mkItemUpdate (Some "cream") (NNum 5) (Some "kg"))) in
      status r = 200%nat
      /\ l_items <$> findById 20 st' = Some [mkItem 30 "cream" 5 "kg" false]).
Proof. vm_compute. repeat split; congruence. Qed.

(** On the same store the delete-item handler refuses alice. *)
Example deleteItem_refuses_alice :
  deleteItem bobStore alice 20 30
  = (mkResponse 404 (ErrorBody "List not found or item not found"), bobStore).
Proof. reflexivity. Qed.

End Ownership.

(* ================================================================== *)
(** ** The save-time guard of the List model *)
(* ================================================================== *)

Section SaveGuard.
Import Scenario.

Lemma findIndex_Some_lookup {A} (p : A -> bool) (l : list A) (k : nat) :
  findIndex p l = Some k -> exists x, l !! k = Some x /\ p x = true.
Proof.
  revert k. induction l as [|a r IH]; simpl; intros k H; [discriminate|].
  destruct (p a) eqn:Ea.
  - injection H as <-. exists a. split; [reflexivity | exact Ea].
  - destruct (findIndex p r) as [k'|] eqn:Ek; simpl in H; [|discriminate].
    injection H as <-. destruct (IH k' eq_refl) as (x & Hx & Hp).
    exists x. split; assumption.
Qed.

Lemma findIndex_None {A} (p : A -> bool) (l : list A) :
  findIndex p l = None <-> forall x, In x l -> p x = false.
Proof.
  induction l as [|a r IH]; simpl.
  - split; [intros _ x [] | reflexivity].
  - destruct (p a) eqn:Ea.
    + split; [discriminate|]. intros H. rewrite (H a (or_introl eq_refl)) in Ea.
      discriminate.
    + destruct (findIndex p r) as [k|] eqn:Ek; simpl.
      * split; [discriminate|]. intros H.
        destruct IH as [_ IH]. discriminate IH. intros x Hx. apply H. now right.
      * split; [|reflexivity]. intros _ x [<-|Hx]; [exact Ea|].
        destruct IH as [IH _]. now apply IH.
Qed.

Lemma someFrom_true {A} (p : A -> nat -> bool) (l : list A) (i : nat) :
  someFrom p i l = true <-> exists j x, l !! j = Some x /\ p x (i + j)%nat = true.
Proof.
  revert i. induction l as [|a r IH]; simpl; intros i.
  - split; [discriminate|]. intros (j & x & H & _). destruct j; discriminate.
  - rewrite orb_true_iff, IH. split.
    + intros [H | (j & x & Hj & Hp)].
      * exists O, a. rewrite Nat.add_0_r. split; [reflexivity | exact H].
      * exists (S j), x. split; [exact Hj|]. now replace (i + S j)%nat with (S i + j)%nat by lia.
    + intros (j & x & Hj & Hp). destruct j as [|j]; simpl in Hj.
      * injection Hj as ->. left. now rewrite Nat.add_0_r in Hp.
      * right. exists j, x. split; [exact Hj|].
        now replace (S i + j)%nat with (i + S j)%nat by lia.
Qed.

(** What the hook of list.js checks: the names, lowercased and not
    trimmed, are pairwise distinct. *)
Lemma hasDuplicates_false_iff (items : list Item) :
  hasDuplicates items = false <-> NoDup (itemNames items).
Proof.
  unfold hasDuplicates, some. set (names := itemNames items).
  rewrite <- not_true_iff_false, someFrom_true, NoDup_alt. split.
  - intros H i j x Hi Hj.
    assert (Hidx : forall k, names !! k = Some x -> indexOf x names = Some k).
    { intros k Hk. destruct (decide (indexOf x names = Some k)) as [E|E]; [exact E|].
      exfalso. apply H. exists k, x. split; [exact Hk|]. simpl.
      rewrite bool_decide_eq_false_2; [reflexivity | exact E]. }
    pose proof (Hidx i Hi) as Ei. pose proof (Hidx j Hj) as Ej. congruence.
  - intros Hnd (j & x & Hj & Hp). simpl in Hp.
    apply negb_true_iff, bool_decide_eq_false in Hp. apply Hp. unfold indexOf.
    destruct (findIndex (String.eqb x) names) as [k|] eqn:Ek.
    + destruct (findIndex_Some_lookup _ _ _ Ek) as (y & Hy & Hxy).
      apply String.eqb_eq in Hxy. subst y. f_equal. exact (Hnd k j x Hy Hj).
    + exfalso. rewrite findIndex_None in Ek.
      assert (Hin : In x names).
      { apply list_elem_of_In, list_elem_of_lookup. now exists j. }
      specialize (Ek x Hin). rewrite String.eqb_refl in Ek. discriminate.
Qed.

(** The hook is a hard failure on a collision of lowercased names. *)
Lemma preSave_rejects_lowercase_duplicates (items : list Item) :
  ~ NoDup (itemNames items) -> preSave items = Throw DuplicateItemNames.
Proof.
  intros H. unfold preSave. destruct (hasDuplicates items) eqn:E; [reflexivity|].
  apply hasDuplicates_false_iff in E. contradiction.
Qed.

(** C3. A list with the items "milk" and "milk " passes the save-time
    guard although both names trim and lowercase to "milk": the hook
    lowercases the names and does not trim them.  The list-creation
    request with these two items answers 201 and the list is stored
    with both. *)
Theorem save_accepts_names_equal_after_trim :
  let items := [mkItem 101 "milk" 1 "pcs" false; mkItem 102 "milk " 1 "pcs" false] in
  toLowerCase (trim "milk") = toLowerCase (trim "milk ")
  /\ preSave items = Ok tt
  /\ addList noLists bob 10 (Some "Weekly") (Some [DString "milk"; DString "milk "])
     = (mkResponse 201 (ListData "List added successfully" (mkList 100 "Weekly" 10 bob items)),
        mkState (categories noLists) [mkList 100 "Weekly" 10 bob items] 103).
Proof. repeat split. Qed.

(** With equal lowercased names the same request is refused (the
    hook's error reaches the catch-all 500). *)
Example addList_refuses_case_duplicate :
  addList noLists bob 10 (Some "Weekly") (Some [DString "milk"; DString "Milk"])
  = (mkResponse 500 (ErrorBody "Error adding list"), noLists).
Proof. reflexivity. Qed.

End SaveGuard.

(* ================================================================== *)
(** ** Category deletion *)
(* ================================================================== *)

Section Cascade.

Lemma filter_filter_nil {A} (p q : A -> bool) (l : list A) :
  (forall x, p x = true -> q x = false) ->
  List.filter p (List.filter q l) = [].
Proof.
  intros H. induction l as [|a r IH]; simpl; [reflexivity|].
  destruct (q a) eqn:Eq; simpl; [|exact IH].
  destruct (p a) eqn:Ep; [|exact IH].
  rewrite (H a Ep) in Eq. discriminate.
Qed.

(** C9. Delete-category answers 200; afterwards no list of the store
    has the deleted category's id, and fetch-lists for that category
    answers 200 with the empty array, for every user. *)
Theorem deleteCategory_cascades (st : State) (userId categoryId : ObjectId) :
  let '(r, st') := deleteCategory st userId categoryId in
  status r = 200%nat
  /\ (forall l, In l (lists st') -> l_categoryId l <> categoryId)
  /\ (forall u, fetchLists st' u categoryId = (mkResponse 200 (ListsData []), st')).
Proof.
  simpl. split; [reflexivity|]. split.
  - intros l Hl. apply filter_In in Hl as [_ Hl].
    apply negb_true_iff, Nat.eqb_neq in Hl. exact Hl.
  - intros u. unfold fetchLists. simpl. rewrite filter_filter_nil; [reflexivity|].
    intros x Hx. apply andb_true_iff in Hx as [Hx _]. now rewrite Hx.
Qed.

End Cascade.

(* ================================================================== *)
(** ** Update of a single item *)
(* ================================================================== *)

Section UpdateItem.
Import Scenario.

(** The example of the rename: "Milk" (item 30) is renamed to "milk "
    while item 31 is "milk".  The new name and the current name have
    the same key, the duplicate check is skipped, the answer is 200
    and the list then holds "milk " and "milk".  The same happens on
    a list that list creation can store ("milk " and "milk"). *)
Lemma rename_same_key_not_checked :
  (let upd := mkItemUpdate (Some "milk ") (NNum 1) (Some "L") in
   let '(r, st') := updateItem milkStore bob 20 30 (Some upd) in
   toLowerCase (trim "milk") = toLowerCase (trim "milk ")
   /\ status r = 200%nat
   /\ st' <> milkStore
   /\ l_items <$> findById 20 st'
      = Some [mkItem 30 "milk " 1 "L" false; mkItem 31 "milk" 2 "L" false])
  /\ (let upd := mkItemUpdate (Some "Milk  ") (NNum 2) (Some "L") in
      let '(r, st') := updateItem spacedStore bob 20 31 (Some upd) in
      toLowerCase (trim "milk ") = toLowerCase (trim "Milk  ")
      /\ status r = 200%nat
      /\ l_items <$> findById 20 st'
         = Some [mkItem 30 "milk " 1 "L" false; mkItem 31 "Milk  " 2 "L" false]).
Proof. vm_compute. repeat split; congruence. Qed.

(** C2 (amended). When the new name, trimmed and lowercased, differs
    from the trimmed, lowercased name of the item being updated, and
    another item of the list has that same trimmed, lowercased name,
    the handler answers 400 with the duplicate-name message and the
    store is unchanged. *)
Theorem updateItem_rename_conflict
    (st : State) (userId listID itemID : ObjectId) (upd : ItemUpdate)
    (list : ListDoc) (newName : string) (other : Item) :
  u_name upd = Some newName -> newName <> EmptyString ->
  looseNull (u_quantity upd) = false -> truthy (u_unit upd) = true ->
  findById listID st = Some list ->
  currentKey itemID (l_items list) <> Some (toLowerCase (trim newName)) ->
  In other (l_items list) -> i_id other <> itemID ->
  toLowerCase (trim (i_name other)) = toLowerCase (trim newName) ->
  updateItem st userId listID itemID (Some upd)
  = (mkResponse 400 (ErrorBody "Item name already exists in the list (case-insensitive)"),
     st).
Proof.
  intros Hname Hne Hq Hu Hfind Hkey Hin Hid Hsame.
  unfold updateItem. rewrite Hname, Hq, Hu.
  assert (Horig : orDefault (Some newName) "" = newName).
  { destruct newName; [contradiction | reflexivity]. }
  assert (Htruthy : truthy (Some newName) = true).
  { destruct newName; [contradiction | reflexivity]. }
  rewrite Htruthy, Hfind, Horig. cbn [negb orb].
  fold (currentKey itemID (l_items list)).
  rewrite bool_decide_eq_false_2 by congruence. cbn [negb].
  replace (existsb _ (l_items list)) with true; [reflexivity|].
  symmetry. apply existsb_exists. exists other. split; [exact Hin|].
  apply andb_true_iff. split.
  - apply negb_true_iff, Nat.eqb_neq. exact Hid.
  - apply String.eqb_eq. exact Hsame.
Qed.

(** Renaming "cream" (item 30) to " Milk" next to "milk" (item 31). *)
Lemma updateItem_rename_conflict_witness :
  let st := mkState [] [mkList 20 "Weekly" 10 bob
                          [mkItem 30 "cream" 1 "L" false; mkItem 31 "milk" 2 "L" false]] 100 in
  updateItem st bob 20 30 (Some (mkItemUpdate (Some " Milk") (NNum 1) (Some "L")))
  = (mkResponse 400 (ErrorBody "Item name already exists in the list (case-insensitive)"),
     st).
Proof.
  intros st.
  apply (updateItem_rename_conflict st bob 20 30
           (mkItemUpdate (Some " Milk") (NNum 1) (Some "L"))
           (mkList 20 "Weekly" 10 bob
              [mkItem 30 "cream" 1 "L" false; mkItem 31 "milk" 2 "L" false])
           " Milk" (mkItem 31 "milk" 2 "L" false)).
  - reflexivity.
  - discriminate.
  - reflexivity.
  - reflexivity.
  - reflexivity.
  - vm_compute. discriminate.
  - simpl. right. left. reflexivity.
  - simpl. lia.
  - reflexivity.
Defined.

End UpdateItem.

(* ================================================================== *)
(** ** The merge handler: batches *)
(* ================================================================== *)

Section MergeBatch.
Import Scenario.

(** A request that is not answered with 200 leaves the store as it
    was: the merge either writes the whole result or nothing. *)
Lemma updatelist_writes_only_on_200
    (st : State) (userId listID : ObjectId) (items : option (list Descriptor)) :
  status (updatelist st userId listID items).1 <> 200%nat ->
  (updatelist st userId listID items).2 = st.
Proof.
  unfold updatelist. destruct items as [[|d ds]|]; try reflexivity.
  destruct (findById listID st) as [list|]; [|reflexivity].
  destruct (mergeLoop _ (d :: ds)) as [acc|e]; [|reflexivity].
  destruct (unitConflicts acc); [|reflexivity].
  destruct (save _ _); simpl; [congruence | reflexivity].
Qed.

(** When the loop runs to its end and has recorded conflicts, the
    answer is 400 with all of them, in the order of the batch, and
    nothing is written. *)
Lemma updatelist_conflicts_rejected
    (st : State) (userId listID : ObjectId) (d : Descriptor) (ds : list Descriptor)
    (list : ListDoc) (acc : Acc) :
  findById listID st = Some list ->
  mergeLoop (mkAcc (l_items list) [] (nextId st)) (d :: ds) = Ok acc ->
  unitConflicts acc <> [] ->
  updatelist st userId listID (Some (d :: ds))
  = (mkResponse 400 (ConflictBody (conflictMessage (unitConflicts acc)) (unitConflicts acc)),
     st).
Proof.
  intros Hfind Hloop Hne. unfold updatelist. rewrite Hfind, Hloop.
  destruct (unitConflicts acc); [contradiction | reflexivity].
Qed.

Lemma mergeOne_skips (acc : Acc) (d : Descriptor) :
  skipped d = true -> mergeOne acc d = Ok acc.
Proof.
  destruct d as [s|[n|] q u| | | |]; simpl; try discriminate; try reflexivity.
  destruct n; simpl; [reflexivity | discriminate].
Qed.

(** In list creation the same shapes abort the request with 400. *)
Lemma formatNew_rejects (d : Descriptor) :
  skipped d = true -> formatNew d = Throw InvalidItemFormat.
Proof.
  destruct d as [s|[n|] q u| | | |]; simpl; try discriminate; try reflexivity.
  destruct n; simpl; [reflexivity | discriminate].
Qed.

(** A batch of skipped shapes and one new name: the name is appended. *)
Example updatelist_skips_and_applies :
  (updatelist bobStore bob 20
     (Some [DNumber 4; DBool true; DArray; DObject None NAbsent None; DString "eggs"])).1
  = mkResponse 200
      (ListData "List updated successfully"
         (mkList 20 "Weekly" 10 bob
            [mkItem 30 "milk" 1 "L" false; mkItem 100 "eggs" 1 "pcs" false])).
Proof. reflexivity. Qed.

(** C10. A null element of the batch is neither a string nor an
    object with a name, and it is not skipped: [typeof null] is
    'object', reading [null.name] raises, and the whole request is
    answered 500 with nothing applied, although the other element,
    alone, is applied with 200.  List creation answers 500 as well,
    not 400, on a null element. *)
Theorem updatelist_null_descriptor_raises :
  mergeOne (mkAcc [] [] 0) DNull = Throw TypeError
  /\ updatelist bobStore bob 20 (Some [DNull; DString "eggs"])
     = (mkResponse 500 (ErrorBody "Error updating list"), bobStore)
  /\ status (updatelist bobStore bob 20 (Some [DString "eggs"])).1 = 200%nat
  /\ addList noLists bob 10 (Some "Weekly") (Some [DString "eggs"; DNull])
     = (mkResponse 500 (ErrorBody "Error adding list"), noLists).
Proof. repeat split. Qed.

(** C4. The batch is a descriptor with a unit conflict ("Milk" in gal
    against the stored "milk" in L) followed by null.  Alone, the
    first descriptor is answered 400 with its conflict; with the null
    after it the loop raises before the conflicts are looked at, and
    the answer is 500 without a conflict list.  The store is unchanged
    in both cases. *)
Theorem updatelist_conflict_then_null :
  let gal := DObject (Some "Milk") (NNum 2) (Some "gal") in
  updatelist bobStore bob 20 (Some [gal])
  = (mkResponse 400
       (ConflictBody "Unit conflict detected for items:[object Object]"
          [mkConflict "Milk" "L" "gal"]),
     bobStore)
  /\ updatelist bobStore bob 20 (Some [gal; DNull])
     = (mkResponse 500 (ErrorBody "Error updating list"), bobStore).
Proof. repeat split. Qed.

(** One mergeable and one conflicting descriptor: the mergeable
    item's quantity is not changed and the conflict is reported. *)
Example updatelist_all_or_nothing :
  updatelist bobStore bob 20
    (Some [DObject (Some "milk") (NNum 3) (Some "L");
           DObject (Some "Milk") (NNum 2) (Some "gal")])
  = (mkResponse 400
       (ConflictBody "Unit conflict detected for items:[object Object]"
          [mkConflict "Milk" "L" "gal"]),
     bobStore).
Proof. reflexivity. Qed.

End MergeBatch.

(* ================================================================== *)
(** ** The merge handler: one descriptor *)
(* ================================================================== *)

Section MergeOne.
Import Scenario.


Lemma formatMerge_normal (d : Descriptor) (f : Formatted) :
  formatMerge d = Ok (Some f) ->
  exists raw, suppliedName d = Some raw
  /\ f = mkFormatted (trim raw) (positiveOrOne (suppliedQuantity d))
           (orDefault (suppliedUnit d) "pcs") (le0 (suppliedQuantity d)).
Proof.
  destruct d as [s|[n|] q u| | | |]; simpl; try discriminate.
  - intros [= <-]. exists s. split; reflexivity.
  - destruct (isEmpty n); [discriminate|]. intros [= <-]. exists n. split; reflexivity.
Qed.





(** The stored quantity 2^53 and the incoming quantity 1: the sum is
    not a double and is rounded back to 2^53. *)
Example accumulate_rounds :
  mergeOne (mkAcc [mkItem 30 "milk" 9007199254740992 "L" false] [] 100)
           (DObject (Some "milk") (NNum 1) (Some "L"))
  = Ok (mkAcc [mkItem 30 "milk" 9007199254740992 "L" false] [] 100).
Proof. reflexivity. Qed.

End MergeOne.

(* ================================================================== *)
(** ** The merge handler: the same descriptor three times *)
(* ================================================================== *)

Section MergeThrice.
Import Scenario.

Lemma findById_id (listID : ObjectId) (st : State) (l : ListDoc) :
  findById listID st = Some l -> l_id l = listID.
Proof.
  unfold findById. intros H. apply find_some in H as [_ H]. now apply Nat.eqb_eq.
Qed.

(** After a save the document found under the id is the saved one. *)
Lemma findById_saved (listID : ObjectId) (st : State) (l doc : ListDoc)
    (cats : list Category) (n : ObjectId) :
  findById listID st = Some l -> l_id doc = listID ->
  findById listID
    (mkState cats (replaceFirst (fun x => Nat.eqb (l_id x) (l_id doc)) doc (lists st)) n)
  = Some doc.
Proof.
  unfold findById. simpl. intros H Hid. rewrite Hid.
  induction (lists st) as [|a r IH]; simpl in *; [discriminate|].
  destruct (Nat.eqb (l_id a) listID) eqn:E; simpl.
  - now rewrite Hid, Nat.eqb_refl.
  - rewrite E. now apply IH.
Qed.

Lemma beforeSave_single (it : Item) :
  i_name it <> EmptyString -> beforeSave [it] = Ok tt.
Proof.
  intros Hne. unfold beforeSave, validateItems. simpl.
  apply isEmpty_false in Hne. rewrite Hne. simpl. unfold preSave.
  replace (hasDuplicates [it]) with false; [reflexivity|].
  symmetry. apply hasDuplicates_false_iff. simpl. apply NoDup_singleton.
Qed.

Lemma formatMerge_trimmed (d : Descriptor) (f : Formatted) :
  formatMerge d = Ok (Some f) -> trim (f_name f) = f_name f.
Proof.
  intros Hf. destruct (formatMerge_normal d f Hf) as (raw & _ & ->). apply trim_idem.
Qed.

(** A new name into a list without items: one item, under a new id. *)
Lemma updatelist_first (st : State) (userId listID : ObjectId) (l : ListDoc)
    (d : Descriptor) (f : Formatted) :
  findById listID st = Some l -> l_items l = [] ->
  formatMerge d = Ok (Some f) -> f_name f <> EmptyString ->
  let l1 := set_items l [mkItem (nextId st) (f_name f) (f_quantity f) (f_unit f)
                                (f_isCompleted f)] in
  updatelist st userId listID (Some [d])
  = (mkResponse 200 (ListData "List updated successfully" l1),
     mkState (categories st)
             (replaceFirst (fun x => Nat.eqb (l_id x) (l_id l1)) l1 (lists st))
             (S (nextId st))).
Proof.
  intros Hfind Hitems Hf Hne l1. unfold updatelist. rewrite Hfind, Hitems.
  simpl. unfold mergeOne. rewrite Hf. simpl.
  unfold save. fold l1. simpl. rewrite beforeSave_single by exact Hne. reflexivity.
Qed.

(** The same descriptor onto the item it created: the per-call
    quantity is added to the stored one. *)
Lemma updatelist_again (st : State) (userId listID : ObjectId) (l : ListDoc)
    (d : Descriptor) (f : Formatted) (id : ObjectId) (q : Z) :
  findById listID st = Some l ->
  l_items l = [mkItem id (f_name f) q (f_unit f) (f_isCompleted f)] ->
  formatMerge d = Ok (Some f) -> f_name f <> EmptyString ->
  let l1 := set_items l [mkItem id (f_name f) (plus q (f_quantity f)) (f_unit f)
                                (f_isCompleted f)] in
  updatelist st userId listID (Some [d])
  = (mkResponse 200 (ListData "List updated successfully" l1),
     mkState (categories st)
             (replaceFirst (fun x => Nat.eqb (l_id x) (l_id l1)) l1 (lists st))
             (nextId st)).
Proof.
  intros Hfind Hitems Hf Hne l1. unfold updatelist. rewrite Hfind, Hitems.
  simpl. unfold mergeOne. rewrite Hf. simpl. unfold reconcile, sameName. simpl.
  rewrite (formatMerge_trimmed d f Hf), !String.eqb_refl. simpl.
  unfold save. fold l1. simpl. rewrite beforeSave_single by exact Hne. reflexivity.
Qed.

Lemma mergeThrice_new (st : State) (userId listID : ObjectId) (l : ListDoc)
    (d : Descriptor) (f : Formatted) :
  findById listID st = Some l -> l_items l = [] ->
  formatMerge d = Ok (Some f) -> f_name f <> EmptyString ->
  let l3 := set_items l [mkItem (nextId st) (f_name f)
                           (plus (plus (f_quantity f) (f_quantity f)) (f_quantity f))
                           (f_unit f) (f_isCompleted f)] in
  (mergeThrice st userId listID d).1
  = mkResponse 200 (ListData "List updated successfully" l3)
  /\ findById listID (mergeThrice st userId listID d).2 = Some l3.
Proof.
  intros Hfind Hitems Hf Hne l3. unfold mergeThrice.
  pose proof (findById_id _ _ _ Hfind) as Hid.
  rewrite (updatelist_first st userId listID l d f Hfind Hitems Hf Hne).
  cbn [snd].
  set (l1 := set_items l [mkItem (nextId st) (f_name f) (f_quantity f) (f_unit f)
                                 (f_isCompleted f)]).
  set (st1 := mkState _ _ _).
  assert (H1 : findById listID st1 = Some l1) by (apply (findById_saved _ _ l); assumption).
  rewrite (updatelist_again st1 userId listID l1 d f _ _ H1 eq_refl Hf Hne).
  cbn [snd].
  set (l2 := set_items l1 _). set (st2 := mkState _ _ _).
  assert (H2 : findById listID st2 = Some l2) by (apply (findById_saved _ _ l1); assumption).
  rewrite (updatelist_again st2 userId listID l2 d f _ _ H2 eq_refl Hf Hne).
  cbn [fst snd]. split; [reflexivity|].
  apply (findById_saved _ _ l2); assumption.
Qed.



(** A bare name, which counts 1 per call, gives quantity 3 in "pcs". *)
Lemma merge_same_name_thrice
    (st : State) (userId listID : ObjectId) (l : ListDoc) (name : string) :
  findById listID st = Some l -> l_items l = [] -> trim name <> EmptyString ->
  l_items <$> findById listID (mergeThrice st userId listID (DString name)).2
  = Some [mkItem (nextId st) (trim name) 3 "pcs" false].
Proof.
  intros Hfind Hitems Hname.
  destruct (mergeThrice_new st userId listID l (DString name) _ Hfind Hitems eq_refl Hname)
    as [_ Hl].
  rewrite Hl. reflexivity.
Qed.


End MergeThrice.

(* ================================================================== *)
(** ** Tokens: refresh and signin *)
(* ================================================================== *)

Section Tokens.
Import Authenticator Scenario.

Lemma verify_sign (userId : ObjectId) (mail : option string) (secret : string)
    (expiresIn now : Z) :
  0 < expiresIn ->
  verify (sign userId mail secret expiresIn now) secret now
  = Ok (mkPayload userId mail now (now + expiresIn)).
Proof.
  intros H. unfold verify, sign. rewrite String.eqb_refl. simpl.
  destruct (Z.leb_spec (now + expiresIn) now); [lia | reflexivity].
Qed.

(** A token whose [exp] has passed, and a token signed with another
    key, fail verification. *)
Lemma verify_expired (key secret : string) (p : Payload) (now : Z) :
  p_exp p <= now -> exists e, verify (Signed key p) secret now = Throw e.
Proof.
  intros H. unfold verify. destruct (String.eqb key secret); [|now eexists].
  destruct (Z.leb_spec (p_exp p) now); [now eexists | lia].
Qed.

Lemma verify_wrong_key (key secret : string) (p : Payload) (now : Z) :
  key <> secret -> verify (Signed key p) secret now = Throw JsonWebTokenError.
Proof.
  intros H. unfold verify. apply String.eqb_neq in H. now rewrite H.
Qed.

(** C7. The refresh endpoint
    - answers 401 when the request has no refreshToken cookie;
    - answers 403 when the cookie holds a token that does not verify
      under the refresh secret at the time of the request (another
      signature, another string, or an [exp] that has passed);
    - answers 200 when the token verifies, with an access token that
      is issued at the time of the request, verifies under the access
      secret and carries the user id of the refresh token; the
      response sets no cookie, so the refresh token stays as it is. *)
Theorem refresh_flow (cfg : Config) (now : Z) :
  status (refresh cfg now None) = 401%nat
  /\ (forall token e,
        missing (Some token) = false ->
        verify token (REFRESH_TOKEN_SECRET cfg) now = Throw e ->
        status (refresh cfg now (Some token)) = 403%nat)
  /\ (forall token decoded,
        verify token (REFRESH_TOKEN_SECRET cfg) now = Ok decoded ->
        exists newAccessToken payload,
          refresh cfg now (Some token) = mkResponse 200 (Refreshed newAccessToken) NoCookie
          /\ verify newAccessToken (ACCESS_TOKEN_SECRET cfg) now = Ok payload
          /\ p_userId payload = p_userId decoded
          /\ p_iat payload = now).
Proof.
  split; [reflexivity|]. split.
  - intros token e Hpresent Hbad. unfold refresh. rewrite Hpresent, Hbad. reflexivity.
  - intros token decoded Hok. unfold refresh.
    assert (Hpresent : missing (Some token) = false).
    { destruct token as [key p|raw]; [reflexivity | discriminate]. }
    rewrite Hpresent, Hok. eexists. eexists. split; [reflexivity|].
    rewrite verify_sign by lia. repeat split.
Qed.

(** Bob's refresh token, one hour after signin, eight days after
    signin, and with a forged signature. *)
Lemma refresh_flow_witness :
  status (refresh cfg 4600 (Some bobRefresh)) = 200%nat
  /\ status (refresh cfg (1000 + 8 * 24 * 60 * 60) (Some bobRefresh)) = 403%nat
  /\ status (refresh cfg 4600
               (Some (Signed "forged" (mkPayload bob None 1000 999999)))) = 403%nat.
Proof.
  split; [|split].
  - destruct (proj2 (proj2 (refresh_flow cfg 4600)) bobRefresh
                (mkPayload bob None 1000 (1000 + 7 * 24 * 60 * 60)) eq_refl)
      as (t & p & -> & _).
    reflexivity.
  - apply (proj1 (proj2 (refresh_flow cfg (1000 + 8 * 24 * 60 * 60)))
             bobRefresh TokenExpiredError); reflexivity.
  - apply (proj1 (proj2 (refresh_flow cfg 4600))
             (Signed "forged" (mkPayload bob None 1000 999999)) JsonWebTokenError);
      reflexivity.
Defined.

(** Every access token the refresh endpoint mints has no email in its
    payload. *)
Lemma refresh_payload_has_no_email (cfg : Config) (now now' : Z)
    (cookie : option Token) (t : Token) (c : CookieOp) (p : Payload) :
  refresh cfg now cookie = mkResponse 200 (Refreshed t) c ->
  verify t (ACCESS_TOKEN_SECRET cfg) now' = Ok p ->
  p_email p = None.
Proof.
  unfold refresh. destruct (missing cookie); [discriminate|].
  destruct cookie as [token|]; [|discriminate].
  destruct (verify token _ now) as [decoded|e]; [|discriminate].
  intros [= <- _]. unfold verify, sign.
  destruct (String.eqb _ _); [|discriminate].
  destruct (_ <=? _); [discriminate|]. now intros [= <-].
Qed.

(** C8. Bob signs in at time 1000: the access token in the body
    carries his id and his email.  With the refresh cookie of that
    signin he calls the refresh endpoint at time 1030: the access
    token he gets carries his id and no email, and the route guard
    then sets req.user.email to undefined. *)
Theorem refreshed_access_token_lacks_email :
  exists access refreshed,
    signin compare cfg 1000 [bobUser] (Some "bob@example.com") (Some "hunter2")
    = mkResponse 200 (Login "Login successful" access bob "bob" "bob@example.com")
        (SetRefreshToken bobRefresh true false Lax 604800000)
    /\ p_email <$> (match verify access (ACCESS_TOKEN_SECRET cfg) 1030 with
                    | Ok p => Some p | Throw _ => None end)
       = Some (Some "bob@example.com")
    /\ refresh cfg 1030 (Some bobRefresh) = mkResponse 200 (Refreshed refreshed) NoCookie
    /\ verify refreshed (ACCESS_TOKEN_SECRET cfg) 1030
       = Ok (mkPayload bob None 1030 (1030 + 900))
    /\ authenticateToken cfg 1030 (Some refreshed) = inr (mkReqUser bob None)
    /\ authenticateToken cfg 1030 (Some access)
       = inr (mkReqUser bob (Some "bob@example.com")).
Proof. eexists. eexists. repeat split. Qed.

End Tokens.

(* ================================================================== *)
(** ** Tokens: lifetimes, key separation, check-auth *)
(* ================================================================== *)

Section TokenLifetimes.
Import Authenticator Session Scenario.

Lemma verify_signed_iff (key secret : string) (p q : Payload) (now : Z) :
  verify (Signed key p) secret now = Ok q <-> key = secret /\ now < p_exp p /\ q = p.
Proof.
  unfold verify. destruct (String.eqb_spec key secret) as [E|E].
  - destruct (Z.leb_spec (p_exp p) now).
    + split; [discriminate | intros (_ & H' & _); lia].
    + split; [intros [= <-]; auto | intros (_ & _ & ->); reflexivity].
  - split; [discriminate | intros (H & _); contradiction].
Qed.

Lemma signin_200 (compare : string -> string -> bool) (cfg : Config) (now : Z)
    (users : list User) (mail pass : option string) (r : Response) :
  signin compare cfg now users mail pass = r -> status r = 200%nat ->
  exists user,
    List.find (fun u => String.eqb (email u) (orDefault mail "")) users = Some user
    /\ compare (orDefault pass "") (password user) = true
    /\ r = mkResponse 200
             (Login "Login successful"
                (sign (user_id user) (Some (email user)) (ACCESS_TOKEN_SECRET cfg) 60 now)
                (user_id user) (username user) (email user))
             (SetRefreshToken
                (sign (user_id user) None (REFRESH_TOKEN_SECRET cfg) 604800 now)
                true (production cfg) (if production cfg then Strict else Lax) 604800000).
Proof.
  unfold signin. intros <-.
  destruct (negb (truthy mail) || negb (truthy pass)); [discriminate|].
  destruct (List.find _ users) as [user|]; [|discriminate].
  destruct (compare _ (password user)) eqn:Ec; simpl; [|discriminate].
  intros _. exists user. split; [reflexivity|]. split; [exact Ec | reflexivity].
Qed.

(** Signin answers 200 only for a stored user with the given email
    whose hash bcrypt accepts for the given password; both tokens
    then carry the id of that user.  Every other answer sets no cookie
    and carries no token. *)
Theorem signin_sound (compare : string -> string -> bool) (cfg : Config) (now : Z)
    (users : list User) (mail pass : option string) :
  let r := signin compare cfg now users mail pass in
  (status r = 200%nat ->
   exists user m p access refreshToken secure sameSite maxAge,
     mail = Some m /\ pass = Some p /\ In user users /\ email user = m
     /\ compare p (password user) = true
     /\ body r = Login "Login successful" access (user_id user) (username user) m
     /\ cookie r = SetRefreshToken refreshToken true secure sameSite maxAge
     /\ (p_userId <$> (match verify access (ACCESS_TOKEN_SECRET cfg) now with
                       | Ok q => Some q | Throw _ => None end)) = Some (user_id user)
     /\ (p_userId <$> (match verify refreshToken (REFRESH_TOKEN_SECRET cfg) now with
                       | Ok q => Some q | Throw _ => None end)) = Some (user_id user))
  /\ (status r <> 200%nat -> cookie r = NoCookie /\ exists msg, body r = ErrorBody msg).
Proof.
  intros r. split.
  - intros H200. destruct (signin_200 compare cfg now users mail pass r eq_refl H200)
      as (user & Hfind & Hcmp & Hr).
    assert (Ht : truthy mail = true /\ truthy pass = true).
    { revert H200. unfold r, signin.
      destruct (truthy mail), (truthy pass); simpl; try discriminate. auto. }
    destruct Ht as [Hm Hp].
    destruct mail as [m|]; [|discriminate]. destruct pass as [p|]; [|discriminate].
    assert (Em : orDefault (Some m) "" = m) by (destruct m; [discriminate | reflexivity]).
    assert (Ep : orDefault (Some p) "" = p) by (destruct p; [discriminate | reflexivity]).
    rewrite Em in Hfind. rewrite Ep in Hcmp.
    apply find_some in Hfind as [Hin Hmail]. apply String.eqb_eq in Hmail.
    exists user, m, p,
      (sign (user_id user) (Some (email user)) (ACCESS_TOKEN_SECRET cfg) 60 now),
      (sign (user_id user) None (REFRESH_TOKEN_SECRET cfg) 604800 now),
      (production cfg), (if production cfg then Strict else Lax), 604800000.
    rewrite Hr. cbn [body cookie]. rewrite !verify_sign by lia. rewrite Hmail.
    repeat split; assumption.
  - unfold r, signin.
    destruct (negb (truthy mail) || negb (truthy pass)); [intros _; split; eauto|].
    destruct (List.find _ users) as [user|]; [|intros _; split; eauto].
    destruct (negb (compare _ (password user))); [intros _; split; eauto|].
    simpl. congruence.
Qed.

(** Bob signs in with his password. *)
Lemma signin_sound_witness :
  exists user, In user [bobUser] /\ compare "hunter2" (password user) = true.
Proof.
  destruct (proj1 (signin_sound compare cfg 1000 [bobUser]
                     (Some "bob@example.com") (Some "hunter2")) eq_refl)
    as (user & m & p & _ & _ & _ & _ & _ & Hm & Hp & Hin & _ & Hc & _).
  injection Hp as <-. exists user. split; assumption.
Defined.

(** The access token of a signin at time [now] passes the route guard
    as that user, with the email, at every time before [now + 60]
    seconds, and is answered 401 from [now + 60] on. *)
Theorem signin_access_token_lifetime (compare : string -> string -> bool)
    (cfg : Config) (now now' : Z) (users : list User) (mail pass : option string)
    (msg : string) (access : Token) (id : ObjectId) (name m : string) (c : CookieOp) :
  signin compare cfg now users mail pass = mkResponse 200 (Login msg access id name m) c ->
  (now' < now + 60 ->
   authenticateToken cfg now' (Some access) = inr (mkReqUser id (Some m)))
  /\ (now + 60 <= now' ->
      authenticateToken cfg now' (Some access)
      = inl (mkResponse 401 (ErrorBody "Invalid or expired access token") NoCookie)).
Proof.
  intros H.
  destruct (signin_200 compare cfg now users mail pass _ H eq_refl) as (user & _ & _ & Hr).
  injection Hr as _ -> -> _ -> _. unfold authenticateToken, sign, verify. simpl.
  rewrite String.eqb_refl. split; intros Ht.
  - destruct (Z.leb_spec (now + 60) now'); [lia | reflexivity].
  - destruct (Z.leb_spec (now + 60) now'); [reflexivity | lia].
Qed.

Lemma signin_access_token_lifetime_witness :
  authenticateToken cfg 1059
    (Some (sign bob (Some "bob@example.com") (ACCESS_TOKEN_SECRET cfg) 60 1000))
  = inr (mkReqUser bob (Some "bob@example.com"))
  /\ authenticateToken cfg 1060
       (Some (sign bob (Some "bob@example.com") (ACCESS_TOKEN_SECRET cfg) 60 1000))
     = inl (mkResponse 401 (ErrorBody "Invalid or expired access token") NoCookie).
Proof.
  split.
  - apply (proj1 (signin_access_token_lifetime compare cfg 1000 1059 [bobUser]
                    (Some "bob@example.com") (Some "hunter2") _ _ _ _ _ _ eq_refl)).
    lia.
  - apply (proj2 (signin_access_token_lifetime compare cfg 1000 1060 [bobUser]
                    (Some "bob@example.com") (Some "hunter2") _ _ _ _ _ _ eq_refl)).
    lia.
Defined.

(** The refresh cookie of a signin at time [now] is httpOnly, lives
    as long as its token (7 days, in milliseconds), and the refresh
    endpoint accepts its token at every time before [now] + 7 days,
    each time minting an access token for the same user, and answers
    403 from then on. *)
Theorem signin_refresh_cookie_lifetime (compare : string -> string -> bool)
    (cfg : Config) (now now' : Z) (users : list User) (mail pass : option string)
    (msg : string) (access refreshToken : Token) (id : ObjectId) (name m : string)
    (httpOnly secure : bool) (sameSite : SameSite) (maxAge : Z) :
  signin compare cfg now users mail pass
  = mkResponse 200 (Login msg access id name m)
      (SetRefreshToken refreshToken httpOnly secure sameSite maxAge) ->
  httpOnly = true /\ secure = production cfg /\ maxAge = 1000 * (7 * 24 * 60 * 60)
  /\ (now' < now + 7 * 24 * 60 * 60 ->
      refresh cfg now' (Some refreshToken)
      = mkResponse 200 (Refreshed (sign id None (ACCESS_TOKEN_SECRET cfg) 900 now'))
          NoCookie)
  /\ (now + 7 * 24 * 60 * 60 <= now' ->
      status (refresh cfg now' (Some refreshToken)) = 403%nat).
Proof.
  intros H.
  destruct (signin_200 compare cfg now users mail pass _ H eq_refl) as (user & _ & _ & Hr).
  inversion Hr; subst; clear Hr.
  split; [reflexivity|]. split; [reflexivity|]. split; [reflexivity|].
  unfold refresh, sign, verify. simpl. rewrite String.eqb_refl. split; intros Ht.
  - destruct (Z.leb_spec (now + 604800) now'); [lia | reflexivity].
  - destruct (Z.leb_spec (now + 604800) now'); [reflexivity | lia].
Qed.

Lemma signin_refresh_cookie_lifetime_witness :
  status (refresh cfg (1000 + 6 * 24 * 60 * 60) (Some bobRefresh)) = 200%nat
  /\ status (refresh cfg (1000 + 7 * 24 * 60 * 60) (Some bobRefresh)) = 403%nat.
Proof.
  split.
  - destruct (signin_refresh_cookie_lifetime compare cfg 1000 (1000 + 6 * 24 * 60 * 60)
                [bobUser] (Some "bob@example.com") (Some "hunter2")
                _ _ _ _ _ _ _ _ _ _ eq_refl) as (_ & _ & _ & Hok & _).
    exact (f_equal status (Hok ltac:(lia))).
  - destruct (signin_refresh_cookie_lifetime compare cfg 1000 (1000 + 7 * 24 * 60 * 60)
                [bobUser] (Some "bob@example.com") (Some "hunter2")
                _ _ _ _ _ _ _ _ _ _ eq_refl) as (_ & _ & _ & _ & Hexp).
    apply Hexp. lia.
Defined.

End TokenLifetimes.

Section TokenKinds.
Import Authenticator Session Scenario.

(** With two different secrets the two kinds of token do not stand in
    for each other: a token that passes the route guard is answered
    403 by the refresh endpoint, and a token that the refresh endpoint
    accepts is answered 401 by the route guard. *)
Theorem token_kinds_are_separate (cfg : Config) (now : Z) (token : Token) :
  ACCESS_TOKEN_SECRET cfg <> REFRESH_TOKEN_SECRET cfg ->
  ((exists u, authenticateToken cfg now (Some token) = inr u) ->
   status (refresh cfg now (Some token)) = 403%nat)
  /\ (status (refresh cfg now (Some token)) = 200%nat ->
      authenticateToken cfg now (Some token)
      = inl (mkResponse 401 (ErrorBody "Invalid or expired access token") NoCookie)).
Proof.
  intros Hsec. destruct token as [key p|raw].
  - unfold authenticateToken, refresh. cbn [missing].
    destruct (verify (Signed key p) (ACCESS_TOKEN_SECRET cfg) now) as [a|ea] eqn:Ha;
      destruct (verify (Signed key p) (REFRESH_TOKEN_SECRET cfg) now) as [b|eb] eqn:Hr.
    + apply verify_signed_iff in Ha as [Ea _], Hr as [Er _]. congruence.
    + split; [reflexivity | discriminate].
    + split; [intros [u Hu]; discriminate | reflexivity].
    + split; [intros [u Hu]; discriminate | discriminate].
  - unfold authenticateToken, refresh, verify. simpl. destruct (isEmpty raw); simpl.
    + split; [intros [u Hu]; discriminate | discriminate].
    + split; [reflexivity | discriminate].
Qed.

Lemma token_kinds_are_separate_witness :
  status (refresh cfg 1030
            (Some (sign bob (Some "bob@example.com") (ACCESS_TOKEN_SECRET cfg) 60 1000)))
  = 403%nat
  /\ authenticateToken cfg 1030 (Some bobRefresh)
     = inl (mkResponse 401 (ErrorBody "Invalid or expired access token") NoCookie).
Proof.
  split.
  - apply (proj1 (token_kinds_are_separate cfg 1030 _ ltac:(discriminate))).
    eexists. reflexivity.
  - apply (proj2 (token_kinds_are_separate cfg 1030 bobRefresh ltac:(discriminate))).
    reflexivity.
Defined.

(** An access token that the refresh endpoint mints at time [now]
    passes the route guard, as the user of the refresh token and
    without an email, at every time before [now] + 15 minutes, and is
    answered 401 from then on. *)
Theorem refreshed_access_token_lifetime (cfg : Config) (now now' : Z)
    (refreshToken : option Token) (access : Token) (c : CookieOp) :
  refresh cfg now refreshToken = mkResponse 200 (Refreshed access) c ->
  exists token decoded,
    refreshToken = Some token
    /\ verify token (REFRESH_TOKEN_SECRET cfg) now = Ok decoded
    /\ (now' < now + 15 * 60 ->
        authenticateToken cfg now' (Some access) = inr (mkReqUser (p_userId decoded) None))
    /\ (now + 15 * 60 <= now' ->
        authenticateToken cfg now' (Some access)
        = inl (mkResponse 401 (ErrorBody "Invalid or expired access token") NoCookie)).
Proof.
  unfold refresh. destruct (missing refreshToken); [discriminate|].
  destruct refreshToken as [token|]; [|discriminate].
  destruct (verify token _ now) as [d|e] eqn:Hv; [|discriminate].
  intros [= <- _]. exists token, d. split; [reflexivity|]. split; [exact Hv|].
  unfold authenticateToken, sign, verify. simpl. rewrite String.eqb_refl.
  split; intros Ht.
  - destruct (Z.leb_spec (now + 15 * 60) now'); [lia | reflexivity].
  - destruct (Z.leb_spec (now + 15 * 60) now'); [reflexivity | lia].
Qed.

Lemma refreshed_access_token_lifetime_witness :
  authenticateToken cfg 1929 (Some (sign bob None (ACCESS_TOKEN_SECRET cfg) 900 1030))
  = inr (mkReqUser bob None)
  /\ authenticateToken cfg 1930 (Some (sign bob None (ACCESS_TOKEN_SECRET cfg) 900 1030))
     = inl (mkResponse 401 (ErrorBody "Invalid or expired access token") NoCookie).
Proof.
  split.
  - destruct (refreshed_access_token_lifetime cfg 1030 1929 (Some bobRefresh)
                _ _ eq_refl)
      as (token & d & Ht & Hv & Hok & _).
    injection Ht as <-. vm_compute in Hv. injection Hv as <-. apply Hok. lia.
  - destruct (refreshed_access_token_lifetime cfg 1030 1930 (Some bobRefresh)
                _ _ eq_refl)
      as (token & d & Ht & Hv & _ & Hexp).
    injection Ht as <-. vm_compute in Hv. injection Hv as <-. apply Hexp. lia.
Defined.

(** check-auth reports true exactly for the tokens that the route
    guard lets through; it answers 401 exactly when a token is present
    and does not verify, and 200 with false, not 401, when no token is
    sent. *)
Theorem checkAuth_agrees_with_guard (cfg : Config) (now : Z) (bearer : option Token) :
  (isAuthenticated (checkAuth cfg now bearer) = true
   <-> exists u, authenticateToken cfg now bearer = inr u)
  /\ (ac_status (checkAuth cfg now bearer) = 401%nat
      <-> missing bearer = false
          /\ authenticateToken cfg now bearer
             = inl (mkResponse 401 (ErrorBody "Invalid or expired access token") NoCookie))
  /\ (missing bearer = true -> checkAuth cfg now bearer = mkAuthCheck 200 false).
Proof.
  unfold checkAuth, authenticateToken. destruct (missing bearer) eqn:Hm.
  - split; [split; [discriminate | intros [u Hu]; discriminate]|].
    split; [split; [discriminate | intros [H _]; discriminate] | reflexivity].
  - destruct bearer as [token|]; [|discriminate].
    destruct (verify token _ now) as [d|e]; cbn [isAuthenticated ac_status].
    + split; [split; [eauto | reflexivity]|].
      split; [split; [discriminate | intros [_ H]; discriminate] | discriminate].
    + split; [split; [discriminate | intros [u Hu]; discriminate]|].
      split; [split; [auto | reflexivity] | discriminate].
Qed.

Lemma checkAuth_agrees_with_guard_witness :
  checkAuth cfg 1030 None = mkAuthCheck 200 false
  /\ authenticateToken cfg 1030 None
     = inl (mkResponse 401 (ErrorBody "Authentication token missing") NoCookie).
Proof.
  split.
  - apply (proj2 (proj2 (checkAuth_agrees_with_guard cfg 1030 None))). reflexivity.
  - reflexivity.
Defined.

End TokenKinds.

(* ================================================================== *)
(** ** What a save accepts, and how the handlers' key relates to it *)
(* ================================================================== *)

Section SaveAccepts.
Import Api Scenario.

(** The two checks of [doc.save()] accept a list of items exactly
    when no name is empty and the lowercased names are pairwise
    distinct. *)
Lemma beforeSave_guarded (items : list Item) :
  beforeSave items = Ok tt <-> guarded items.
Proof.
  unfold beforeSave, validateItems, preSave, guarded.
  destruct (forallb _ items) eqn:Ev; simpl.
  - rewrite forallb_forall in Ev.
    destruct (hasDuplicates items) eqn:Ed.
    + split; [discriminate|]. intros [_ Hnd].
      apply hasDuplicates_false_iff in Hnd. congruence.
    + apply hasDuplicates_false_iff in Ed. split; [intros _|reflexivity].
      split; [|exact Ed]. apply List.Forall_forall. intros it Hit.
      apply isEmpty_false, negb_true_iff. now apply Ev.
  - split; [discriminate|]. intros [Hne _]. exfalso.
    assert (Hall : forallb (fun it => negb (isEmpty (i_name it))) items = true).
    { apply forallb_forall. intros it Hit. apply negb_true_iff, isEmpty_false.
      rewrite List.Forall_forall in Hne. now apply Hne. }
    congruence.
Qed.

Lemma save_Ok (doc : ListDoc) (st st' : State) :
  save doc st = Ok st' ->
  guarded (l_items doc)
  /\ st' = mkState (categories st)
                   (replaceFirst (fun l => Nat.eqb (l_id l) (l_id doc)) doc (lists st))
                   (nextId st).
Proof.
  unfold save. destruct (beforeSave (l_items doc)) as [[]|e] eqn:Hb; simpl; [|discriminate].
  intros [= <-]. split; [now apply beforeSave_guarded | reflexivity].
Qed.

(** A save goes through exactly when no item name is empty and the
    lowercased names are pairwise distinct; names that differ only in
    surrounding blanks are therefore accepted, names that differ only
    in case are refused. *)
Theorem save_accepts_iff (doc : ListDoc) (st : State) :
  (exists st', save doc st = Ok st') <-> guarded (l_items doc).
Proof.
  split.
  - intros [st' H]. now apply save_Ok in H.
  - intros H. apply beforeSave_guarded in H. unfold save. rewrite H. simpl. eauto.
Qed.

Lemma isWhiteSpace_toLowerChar (c : ascii) : isWhiteSpace (toLowerChar c) = isWhiteSpace c.
Proof. destruct c as [[] [] [] [] [] [] [] []]; reflexivity. Qed.

Lemma isEmpty_toLowerCase (s : string) : isEmpty (toLowerCase s) = isEmpty s.
Proof. destruct s; reflexivity. Qed.

Lemma trimStart_toLowerCase (s : string) :
  trimStart (toLowerCase s) = toLowerCase (trimStart s).
Proof.
  induction s as [|c r IH]; simpl; [reflexivity|].
  rewrite isWhiteSpace_toLowerChar. destruct (isWhiteSpace c); [exact IH | reflexivity].
Qed.

Lemma trimEnd_toLowerCase (s : string) :
  trimEnd (toLowerCase s) = toLowerCase (trimEnd s).
Proof.
  induction s as [|c r IH]; simpl; [reflexivity|].
  rewrite isWhiteSpace_toLowerChar, IH, isEmpty_toLowerCase.
  destruct (isWhiteSpace c && isEmpty (trimEnd r)); reflexivity.
Qed.

(** Trimming and lowercasing commute. *)
Lemma trim_toLowerCase (s : string) : trim (toLowerCase s) = toLowerCase (trim s).
Proof. unfold trim. now rewrite trimStart_toLowerCase, trimEnd_toLowerCase. Qed.

Lemma itemKeys_itemNames (items : list Item) : itemKeys items = map trim (itemNames items).
Proof.
  unfold itemKeys, itemNames, key. rewrite List.map_map. apply List.map_ext.
  intros it. symmetry. apply trim_toLowerCase.
Qed.

(** The handlers compare more strictly than the hook: items with
    pairwise distinct keys (trimmed, lowercased names) have pairwise
    distinct lowercased names, so the hook of list.js lets them
    through. *)
Theorem distinct_keys_pass_hook (items : list Item) :
  NoDup (itemKeys items) -> preSave items = Ok tt.
Proof.
  intros H. rewrite itemKeys_itemNames in H. apply NoDup_fmap_1 in H.
  unfold preSave. replace (hasDuplicates items) with false; [reflexivity|].
  symmetry. now apply hasDuplicates_false_iff.
Qed.

Lemma distinct_keys_pass_hook_witness :
  preSave [mkItem 30 "Milk " 1 "L" false; mkItem 31 " eggs" 2 "pcs" false] = Ok tt.
Proof.
  apply distinct_keys_pass_hook. vm_compute.
  apply NoDup_cons. split.
  - intros H. apply list_elem_of_In in H. simpl in H. destruct H as [H|[]]. discriminate.
  - apply NoDup_singleton.
Defined.

End SaveAccepts.

(* ================================================================== *)
(** ** The merge loop: what it keeps *)
(* ================================================================== *)

Section MergeLoop.
Import Api Scenario.

Lemma formatMerge_quantity (d : Descriptor) (f : Formatted) :
  formatMerge d = Ok (Some f) -> 1 <= f_quantity f.
Proof.
  intros Hf. destruct (formatMerge_normal d f Hf) as (raw & _ & ->). simpl.
  unfold positiveOrOne, gt0. destruct (suppliedQuantity d) as [| |z]; simpl; try lia.
  destruct (Z.ltb_spec 0 z); lia.
Qed.

(** The three ways in which one formatted descriptor ends. *)
Lemma reconcile_cases (acc acc' : Acc) (f : Formatted) :
  reconcile acc f = Ok acc' ->
  (exists i it,
      existingItems acc !! i = Some it
      /\ key it = toLowerCase (f_name f) /\ i_unit it = f_unit f
      /\ acc' = mkAcc (<[i:=accumulate it (f_quantity f)]> (existingItems acc))
                      (unitConflicts acc) (gen acc))
  \/ (exists j it,
        existingItems acc !! j = Some it
        /\ key it = toLowerCase (f_name f) /\ i_unit it <> f_unit f
        /\ acc' = mkAcc (existingItems acc)
                        (unitConflicts acc
                           ++ [mkConflict (f_name f) (i_unit it) (f_unit f)])
                        (gen acc))
  \/ ((forall it, In it (existingItems acc) -> key it <> toLowerCase (f_name f))
      /\ acc' = mkAcc (existingItems acc
                         ++ [mkItem (gen acc) (f_name f) (f_quantity f) (f_unit f)
                                    (f_isCompleted f)])
                      (unitConflicts acc) (S (gen acc))).
Proof.
  unfold reconcile.
  destruct (findIndex _ (existingItems acc)) as [i|] eqn:Ei.
  - destruct (findIndex_Some_lookup _ _ _ Ei) as (it & Hit & Hp).
    rewrite Hit. intros [= <-]. left. exists i, it.
    apply andb_true_iff in Hp as [Hn Hu]. apply String.eqb_eq in Hn, Hu.
    repeat split; assumption.
  - destruct (findIndex (fun item => _ && negb _) (existingItems acc)) as [j|] eqn:Ej.
    + destruct (findIndex_Some_lookup _ _ _ Ej) as (it & Hit & Hp).
      rewrite Hit. intros [= <-]. right. left. exists j, it.
      apply andb_true_iff in Hp as [Hn Hu]. apply String.eqb_eq in Hn.
      apply negb_true_iff, String.eqb_neq in Hu. repeat split; assumption.
    + intros [= <-]. right. right. split; [|reflexivity].
      intros it Hin Hk. rewrite findIndex_None in Ei, Ej.
      specialize (Ei it Hin). specialize (Ej it Hin). cbv beta in Ei, Ej.
      unfold sameName in Ei, Ej. fold (key it) in Ei, Ej.
      rewrite Hk, String.eqb_refl in Ei, Ej. simpl in Ei, Ej.
      rewrite Ei in Ej. discriminate.
Qed.

Lemma grows_refl (items : list Item) : grows items items.
Proof. intros i it H. exists it. repeat split; assumption. Qed.

Lemma grows_trans (a b c : list Item) : grows a b -> grows b c -> grows a c.
Proof.
  intros Hab Hbc i it H.
  destruct (Hab i it H) as (it1 & L1 & A1 & B1 & C1 & D1).
  destruct (Hbc i it1 L1) as (it2 & L2 & A2 & B2 & C2 & D2).
  exists it2. repeat split; congruence.
Qed.

Lemma grows_length (a b : list Item) : grows a b -> (List.length a <= List.length b)%nat.
Proof.
  intros H. destruct (decide (List.length a = O)) as [E|E]; [lia|].
  destruct (lookup_lt_is_Some_2 a (List.length a - 1)) as [it Hit]; [lia|].
  destruct (H _ _ Hit) as (it' & Hit' & _). apply lookup_lt_Some in Hit'. lia.
Qed.

Lemma grows_accumulate (items : list Item) (i : nat) (it : Item) (q : Z) :
  items !! i = Some it -> grows items (<[i:=accumulate it q]> items).
Proof.
  intros Hi j x Hj. destruct (decide (i = j)) as [<-|Hne].
  - exists (accumulate it q). rewrite list_lookup_insert_eq by (eapply lookup_lt_Some; eauto).
    assert (x = it) by congruence. subst x. repeat split.
  - exists x. rewrite list_lookup_insert_ne by exact Hne. repeat split; assumption.
Qed.

Lemma grows_app (items extra : list Item) : grows items (items ++ extra).
Proof.
  intros i it H. exists it. rewrite lookup_app_l by (eapply lookup_lt_Some; eauto).
  repeat split; assumption.
Qed.

Lemma itemKeys_accumulate (items : list Item) (i : nat) (it : Item) (q : Z) :
  items !! i = Some it -> itemKeys (<[i:=accumulate it q]> items) = itemKeys items.
Proof.
  intros Hi. unfold itemKeys. change (map key) with (fmap (M:=list) key).
  rewrite list_fmap_insert. apply list_insert_id. rewrite list_lookup_fmap, Hi. reflexivity.
Qed.

Lemma justified_grows (old new : list Item) (c : Conflict) :
  grows old new -> justified old c -> justified new c.
Proof.
  intros Hg (it & Hin & Hk & Hu & Hne).
  apply list_elem_of_In, list_elem_of_lookup in Hin as [i Hi].
  destruct (Hg i it Hi) as (it' & Hi' & _ & Hn & Hu' & _).
  exists it'. split; [apply list_elem_of_In, list_elem_of_lookup; eauto|].
  unfold key in *. rewrite Hn, Hu'. repeat split; assumption.
Qed.

(** One iteration keeps the items, the distinctness of the
    keys and the justification of the conflicts, and the generator
    does not go back. *)
Lemma mergeOne_keeps (acc acc' : Acc) (d : Descriptor) :
  mergeOne acc d = Ok acc' ->
  grows (existingItems acc) (existingItems acc')
  /\ (gen acc <= gen acc')%nat
  /\ (NoDup (itemKeys (existingItems acc)) -> NoDup (itemKeys (existingItems acc')))
  /\ (Forall (justified (existingItems acc)) (unitConflicts acc) ->
      Forall (justified (existingItems acc')) (unitConflicts acc'))
  /\ (List.length (unitConflicts acc') <= S (List.length (unitConflicts acc)))%nat.
Proof.
  unfold mergeOne. destruct (formatMerge d) as [[f|]|e] eqn:Hf; simpl; try discriminate.
  2:{ intros [= <-]. split; [apply grows_refl|]. repeat split; auto; lia. }
  intros Hr. pose proof (formatMerge_trimmed d f Hf) as Htrim.
  destruct (reconcile_cases acc acc' f Hr)
    as [(i & it & Hi & Hk & Hu & ->) | [(j & it & Hj & Hk & Hu & ->) | (Hnone & ->)]];
    simpl.
  - assert (Hg : grows (existingItems acc)
                   (<[i:=accumulate it (f_quantity f)]> (existingItems acc)))
      by (apply grows_accumulate; exact Hi).
    split; [exact Hg|]. split; [lia|]. split.
    { now rewrite (itemKeys_accumulate _ _ _ _ Hi). }
    split; [|lia]. intros Hall. eapply List.Forall_impl; [|exact Hall].
    intros c. now apply justified_grows.
  - split; [apply grows_refl|]. split; [lia|]. split; [auto|]. split.
    + intros Hall. apply List.Forall_app. split; [exact Hall|].
      constructor; [|constructor]. exists it. simpl.
      split; [apply list_elem_of_In, list_elem_of_lookup; eauto|].
      repeat split; assumption.
    + rewrite List.length_app. simpl. lia.
  - split; [apply grows_app|]. split; [lia|]. split.
    + intros Hnd. unfold itemKeys. rewrite List.map_app. simpl.
      apply NoDup_app. split; [exact Hnd|]. split; [|apply NoDup_singleton].
      intros k Hk Hk'. apply list_elem_of_In in Hk, Hk'. simpl in Hk'.
      destruct Hk' as [<-|[]]. apply List.in_map_iff in Hk as (it & Hkey & Hin).
      apply (Hnone it Hin). unfold key in *. simpl in Hkey. now rewrite Htrim in Hkey.
    + split; [|lia]. intros Hall. eapply List.Forall_impl; [|exact Hall].
      intros c. apply justified_grows, grows_app.
Qed.

Lemma mergeLoop_keeps (ds : list Descriptor) (acc acc' : Acc) :
  mergeLoop acc ds = Ok acc' ->
  grows (existingItems acc) (existingItems acc')
  /\ (gen acc <= gen acc')%nat
  /\ (NoDup (itemKeys (existingItems acc)) -> NoDup (itemKeys (existingItems acc')))
  /\ (Forall (justified (existingItems acc)) (unitConflicts acc) ->
      Forall (justified (existingItems acc')) (unitConflicts acc'))
  /\ (List.length (unitConflicts acc')
      <= List.length (unitConflicts acc) + List.length ds)%nat.
Proof.
  revert acc. induction ds as [|d ds IH]; simpl; intros acc.
  - intros [= <-]. split; [apply grows_refl|]. repeat split; auto; lia.
  - destruct (mergeOne acc d) as [acc1|e] eqn:H1; simpl; [|discriminate].
    intros H2. destruct (mergeOne_keeps _ _ _ H1) as (Hg1 & Hn1 & Hk1 & Hj1 & Hl1).
    destruct (IH _ H2) as (Hg2 & Hn2 & Hk2 & Hj2 & Hl2).
    split; [eapply grows_trans; eauto|]. split; [lia|].
    split; [auto|]. split; [auto|]. lia.
Qed.

(** A merge that runs to its end never removes an item and never
    changes an _id, a name, a unit or a completion flag: every item of
    the list is found at its index in the result, where the quantity
    is the one field that may differ, and the array is not shorter. *)
Theorem mergeLoop_grows (ds : list Descriptor) (acc acc' : Acc) :
  mergeLoop acc ds = Ok acc' ->
  grows (existingItems acc) (existingItems acc')
  /\ (List.length (existingItems acc) <= List.length (existingItems acc'))%nat.
Proof.
  intros H. destruct (mergeLoop_keeps ds acc acc' H) as (Hg & _).
  split; [exact Hg | now apply grows_length].
Qed.

Lemma mergeLoop_grows_witness :
  grows [mkItem 30 "milk" 1 "L" false]
        [mkItem 30 "milk" 3 "L" false; mkItem 100 "eggs" 1 "pcs" false].
Proof.
  exact (proj1 (mergeLoop_grows
                  [DObject (Some " Milk ") (NNum 2) (Some "L"); DString "eggs"]
                  (mkAcc [mkItem 30 "milk" 1 "L" false] [] 100)
                  (mkAcc [mkItem 30 "milk" 3 "L" false; mkItem 100 "eggs" 1 "pcs" false]
                         [] 101)
                  eq_refl)).
Defined.

(** The loop never creates a second item with a key that the list
    has: when the keys (trimmed, lowercased names) of the items are
    pairwise distinct before the loop, they are so after it. *)
Theorem mergeLoop_keeps_keys_distinct (ds : list Descriptor) (acc acc' : Acc) :
  NoDup (itemKeys (existingItems acc)) ->
  mergeLoop acc ds = Ok acc' ->
  NoDup (itemKeys (existingItems acc')).
Proof.
  intros Hnd H. destruct (mergeLoop_keeps ds acc acc' H) as (_ & _ & Hk & _). auto.
Qed.

Lemma mergeLoop_keeps_keys_distinct_witness :
  NoDup (itemKeys [mkItem 30 "milk" 3 "L" false; mkItem 100 "eggs" 2 "pcs" false]).
Proof.
  apply (mergeLoop_keeps_keys_distinct
           [DObject (Some " Milk ") (NNum 2) (Some "L"); DString "eggs"; DString "EGGS "]
           (mkAcc [mkItem 30 "milk" 1 "L" false] [] 100)
           (mkAcc [mkItem 30 "milk" 3 "L" false; mkItem 100 "eggs" 2 "pcs" false] [] 101)).
  - vm_compute. apply NoDup_singleton.
  - reflexivity.
Defined.

(** Every conflict that the loop reports names an item of the
    resulting list: the item has the reported name as its key and the
    reported existing unit, and that unit differs from the incoming
    one.  There are at most as many conflicts as descriptors. *)
Theorem mergeLoop_conflicts_justified
    (ds : list Descriptor) (items : list Item) (g : ObjectId) (acc' : Acc) :
  mergeLoop (mkAcc items [] g) ds = Ok acc' ->
  Forall (justified (existingItems acc')) (unitConflicts acc')
  /\ (List.length (unitConflicts acc') <= List.length ds)%nat.
Proof.
  intros H. destruct (mergeLoop_keeps ds _ acc' H) as (_ & _ & _ & Hj & Hl).
  split; [apply Hj; constructor | exact Hl].
Qed.

Lemma mergeLoop_conflicts_justified_witness :
  Forall (justified [mkItem 30 "milk" 1 "L" false]) [mkConflict "Milk" "L" "gal"].
Proof.
  exact (proj1 (mergeLoop_conflicts_justified
                  [DObject (Some "Milk") (NNum 2) (Some "gal")]
                  [mkItem 30 "milk" 1 "L" false] 100
                  (mkAcc [mkItem 30 "milk" 1 "L" false] [mkConflict "Milk" "L" "gal"] 100)
                  eq_refl)).
Defined.

(** Descriptors of the skipped shapes can be dropped from a batch, or
    added to it, without changing what the loop computes. *)
Theorem mergeLoop_ignores_skipped (ds : list Descriptor) (acc : Acc) :
  mergeLoop acc (List.filter (fun d => negb (skipped d)) ds) = mergeLoop acc ds.
Proof.
  revert acc. induction ds as [|d ds IH]; intros acc; simpl; [reflexivity|].
  destruct (skipped d) eqn:Hs; simpl.
  - rewrite (mergeOne_skips acc d Hs). simpl. apply IH.
  - destruct (mergeOne acc d); simpl; [apply IH | reflexivity].
Qed.

End MergeLoop.

(* ================================================================== *)
(** ** The store: what every route keeps *)
(* ================================================================== *)

Section StoreInvariant.
Import Api Scenario.

Lemma sublist_filter_bool {A} (p : A -> bool) (l : list A) :
  sublist (List.filter p l) l.
Proof.
  induction l as [|a r IH]; simpl; [constructor|].
  destruct (p a); [now apply sublist_skip | now apply sublist_cons].
Qed.

Lemma sublist_deleteFirst {A} (p : A -> bool) (l : list A) :
  sublist (deleteFirst p l) l.
Proof.
  induction l as [|a r IH]; simpl; [constructor|].
  destruct (p a); [now apply sublist_cons | now apply sublist_skip].
Qed.

Lemma sublist_map {A B} (f : A -> B) (l1 l2 : list A) :
  sublist l1 l2 -> sublist (map f l1) (map f l2).
Proof. induction 1; simpl; [constructor | now apply sublist_skip | now apply sublist_cons]. Qed.

Lemma sublist_Forall' {A} (P : A -> Prop) (l1 l2 : list A) :
  sublist l1 l2 -> Forall P l2 -> Forall P l1.
Proof.
  induction 1; intros H2; [constructor | |].
  - inversion H2; subst. constructor; auto.
  - inversion H2; subst. auto.
Qed.

Lemma guarded_filter (q : Item -> bool) (items : list Item) :
  guarded items -> guarded (List.filter q items).
Proof.
  intros [Hne Hnd]. split.
  - eapply sublist_Forall'; [apply sublist_filter_bool | exact Hne].
  - eapply sublist_NoDup; [exact Hnd|]. apply sublist_map, sublist_filter_bool.
Qed.

Lemma map_replaceFirst {A B} (f : A -> B) (p : A -> bool) (y : A) (l : list A) :
  (forall x, In x l -> p x = true -> f x = f y) ->
  map f (replaceFirst p y l) = map f l.
Proof.
  induction l as [|a r IH]; simpl; intros H; [reflexivity|].
  destruct (p a) eqn:Ea; simpl.
  - f_equal. symmetry. apply H; auto.
  - f_equal. apply IH. intros x Hx. apply H. now right.
Qed.

Lemma Forall_replaceFirst {A} (P : A -> Prop) (p : A -> bool) (y : A) (l : list A) :
  Forall P l -> P y -> Forall P (replaceFirst p y l).
Proof.
  intros Hl Hy. induction Hl as [|a r Ha Hr IH]; simpl; [constructor|].
  destruct (p a); constructor; auto.
Qed.

Lemma NoDup_map_eq {A B} (f : A -> B) (l : list A) (x y : A) :
  NoDup (map f l) -> In x l -> In y l -> f x = f y -> x = y.
Proof.
  induction l as [|a r IH]; simpl; [intros _ []|].
  rewrite NoDup_cons. intros [Hna Hnd] Hx Hy Hf.
  destruct Hx as [<-|Hx], Hy as [<-|Hy]; auto.
  - exfalso. apply Hna. rewrite Hf. apply list_elem_of_In, List.in_map, Hy.
  - exfalso. apply Hna. rewrite <- Hf. apply list_elem_of_In, List.in_map, Hx.
Qed.

(** Removing documents keeps a store well formed. *)
Lemma WellFormed_sublist (st : State) (cats : list Category) (ls : list ListDoc) :
  WellFormed st -> sublist ls (lists st) -> WellFormed (mkState cats ls (nextId st)).
Proof.
  intros [Hid Hfr Hnm Hit] Hs. constructor; simpl.
  - eapply sublist_NoDup; [exact Hid | now apply sublist_map].
  - eapply sublist_Forall'; eauto.
  - eapply sublist_NoDup; [exact Hnm | now apply sublist_map].
  - eapply sublist_Forall'; eauto.
Qed.

(** Writing back a document of the store, with other items, keeps it
    well formed when the items pass the save-time checks. *)
Lemma WellFormed_replace (st : State) (p : ListDoc -> bool) (list doc : ListDoc)
    (n : ObjectId) :
  WellFormed st -> In list (lists st) ->
  (forall x, In x (lists st) -> p x = true -> l_id x = l_id list) ->
  l_id doc = l_id list -> l_name doc = l_name list -> l_userId doc = l_userId list ->
  guarded (l_items doc) -> (nextId st <= n)%nat ->
  WellFormed (mkState (categories st) (replaceFirst p doc (lists st)) n).
Proof.
  intros [Hid Hfr Hnm Hit] Hin Hp Ei En Eu Hg Hn.
  assert (Hsame : forall x, In x (lists st) -> p x = true -> x = list).
  { intros x Hx Hpx. apply (NoDup_map_eq l_id (lists st)); auto. }
  constructor; simpl.
  - rewrite map_replaceFirst; [exact Hid|]. intros x Hx Hpx. rewrite (Hp x Hx Hpx). auto.
  - apply Forall_replaceFirst.
    + eapply List.Forall_impl; [|exact Hfr]. simpl. intros; lia.
    + rewrite List.Forall_forall in Hfr. specialize (Hfr list Hin). simpl in Hfr. lia.
  - rewrite map_replaceFirst; [exact Hnm|]. intros x Hx Hpx.
    rewrite (Hsame x Hx Hpx). congruence.
  - apply Forall_replaceFirst; assumption.
Qed.

Lemma WellFormed_save (st st' : State) (list doc : ListDoc) (n : ObjectId) :
  WellFormed st -> In list (lists st) ->
  l_id doc = l_id list -> l_name doc = l_name list -> l_userId doc = l_userId list ->
  (nextId st <= n)%nat ->
  save doc (withNextId st n) = Ok st' -> WellFormed st'.
Proof.
  intros Hwf Hin Ei En Eu Hn Hs. apply save_Ok in Hs as [Hg ->]. simpl.
  apply (WellFormed_replace st _ list doc n); auto.
  intros x _ Hx. apply Nat.eqb_eq in Hx. congruence.
Qed.

Lemma withNextId_same (st : State) : withNextId st (nextId st) = st.
Proof. destruct st; reflexivity. Qed.

Lemma findById_In (listID : ObjectId) (st : State) (l : ListDoc) :
  findById listID st = Some l -> In l (lists st).
Proof. unfold findById. intros H. now apply find_some in H. Qed.

Lemma cast_length (n : ObjectId) (fs : list Formatted) :
  List.length (cast n fs) = List.length fs.
Proof. revert n. induction fs as [|f r IH]; simpl; intros n; [reflexivity | now rewrite IH]. Qed.

Ltac not_created :=
  let H := fresh in let E := fresh in
  intros H E; inversion H; subst; simpl in E; lia.

Lemma addList_201 (st st' : State) (userId categoryId : ObjectId) (name : option string)
    (items : option (list Descriptor)) (r : Response) :
  addList st userId categoryId name items = (r, st') -> status r = 201%nat ->
  exists n ds fs,
    name = Some n /\ n <> EmptyString /\ items = Some ds /\ ds <> []
    /\ mapM formatNew ds = Ok fs
    /\ let newList := mkList (nextId st) n categoryId userId (cast (S (nextId st)) fs) in
       guarded (l_items newList)
       /\ (forall l, In l (lists st) -> ~ (l_name l = n /\ l_userId l = userId))
       /\ r = mkResponse 201 (ListData "List added successfully" newList)
       /\ st' = mkState (categories st) (lists st ++ [newList])
                        (S (nextId st) + List.length fs).
Proof.
  unfold addList. destruct items as [[|d ds]|]; try not_created.
  destruct (truthy name) eqn:Hn; cbn [negb]; [|not_created].
  destruct name as [n|]; [|discriminate].
  assert (Hne : n <> EmptyString) by (destruct n; [discriminate | congruence]).
  assert (En : orDefault (Some n) "" = n) by (destruct n; [contradiction | reflexivity]).
  rewrite En. destruct (mapM formatNew (d :: ds)) as [fs|e] eqn:Hm.
  2:{ simpl. destruct e; not_created. }
  cbn [bind]. unfold insert. cbn [l_items l_name l_userId].
  destruct (beforeSave (cast (S (nextId st)) fs)) as [[]|e] eqn:Hb.
  2:{ simpl. destruct e; not_created. }
  simpl. destruct (existsb _ (lists st)) eqn:Hex; [simpl; not_created|].
  simpl. intros H _. inversion H; subst; clear H. exists n, (d :: ds), fs.
  apply beforeSave_guarded in Hb.
  split; [reflexivity|]. split; [exact Hne|]. split; [reflexivity|].
  split; [discriminate|]. split; [exact Hm|]. cbn zeta. cbn [l_items].
  split; [exact Hb|]. split; [|split; reflexivity].
  intros l Hl [E1 E2].
  assert (Hfalse : existsb
      (fun l0 => String.eqb (l_name l0) n && Nat.eqb (l_userId l0) userId) (lists st) = true).
  { apply existsb_exists. exists l. split; [exact Hl|].
    apply andb_true_iff. split; [now apply String.eqb_eq | now apply Nat.eqb_eq]. }
  simpl in Hex. congruence.
Qed.

(** One request keeps the store well formed. *)
Lemma handle_WellFormed (st : State) (r : Request) :
  WellFormed st -> WellFormed (handle st r).2.
Proof.
  intros Hwf. destruct r as [u c|u c|u c name items|u l|u l i|u i|u l items|u l i upd]; simpl.
  - exact Hwf.
  - apply (WellFormed_sublist st); [exact Hwf | apply sublist_filter_bool].
  - destruct (addList st u c name items) as [r st'] eqn:Ha.
    destruct (decide (status r = 201%nat)) as [E|E].
    + destruct (addList_201 _ _ _ _ _ _ _ Ha E)
        as (n & ds & fs & _ & _ & _ & _ & _ & Hg & Hfreshname & _ & ->).
      destruct Hwf as [Hid Hfr Hnm Hit]. constructor; simpl.
      * rewrite List.map_app. simpl. apply NoDup_app. split; [exact Hid|].
        split; [|apply NoDup_singleton]. intros x Hx Hx'.
        apply list_elem_of_In in Hx, Hx'. simpl in Hx'. destruct Hx' as [<-|[]].
        apply List.in_map_iff in Hx as (l0 & Hl0 & Hin).
        rewrite List.Forall_forall in Hfr. specialize (Hfr l0 Hin). simpl in Hfr. lia.
      * apply List.Forall_app. split.
        -- eapply List.Forall_impl; [|exact Hfr]. simpl. intros; lia.
        -- constructor; [simpl; lia | constructor].
      * rewrite List.map_app. simpl. apply NoDup_app. split; [exact Hnm|].
        split; [|apply NoDup_singleton]. intros x Hx Hx'.
        apply list_elem_of_In in Hx, Hx'. simpl in Hx'. destruct Hx' as [<-|[]].
        apply List.in_map_iff in Hx as (l0 & Hl0 & Hin). injection Hl0 as E1 E2.
        apply (Hfreshname l0 Hin). auto.
      * apply List.Forall_app. split; [exact Hit|]. constructor; [exact Hg | constructor].
    + simpl. revert Ha E. unfold addList.
      destruct items as [[|d ds]|]; try (intros [= <- <-]; auto).
      destruct (negb (truthy name)); [intros [= <- <-]; auto|].
      destruct (bind _ _) as [[nl st1]|e]; [intros [= <- <-]; simpl; congruence|].
      destruct e; intros [= <- <-]; auto.
  - unfold deleteList. destruct (findById l st); simpl; [|exact Hwf].
    apply (WellFormed_sublist st); [exact Hwf | apply sublist_deleteFirst].
  - unfold deleteItem.
    destruct (List.find _ (lists st)) as [ld|] eqn:Hf; simpl; [|exact Hwf].
    apply find_some in Hf as [Hin Hsel].
    apply (WellFormed_replace st _ ld); auto.
    + intros x _ Hx. apply andb_true_iff in Hx as [Hx _], Hsel as [Hsel _].
      apply Nat.eqb_eq in Hx, Hsel. congruence.
    + apply guarded_filter. destruct Hwf as [_ _ _ Hit].
      rewrite List.Forall_forall in Hit. now apply Hit.
  - unfold toggle.
    destruct (List.find _ (lists st)) as [ld|] eqn:Hf; simpl; [|exact Hwf].
    apply find_some in Hf as [Hin _].
    destruct (itemById i (l_items ld)) as [[k item]|]; simpl; [|exact Hwf].
    destruct (save _ st) as [st'|e] eqn:Hs; simpl; [|exact Hwf].
    rewrite <- (withNextId_same st) in Hs.
    refine (WellFormed_save st st' ld _ (nextId st) Hwf Hin _ _ _ _ Hs); auto.
  - unfold updatelist. destruct items as [[|d ds]|]; simpl; try exact Hwf.
    destruct (findById l st) as [ld|] eqn:Hf; simpl; [|exact Hwf].
    destruct (mergeOne _ d) as [acc1|e] eqn:H1; simpl; [|exact Hwf].
    destruct (mergeLoop acc1 ds) as [acc|e] eqn:H2; simpl; [|exact Hwf].
    destruct (unitConflicts acc); simpl; [|exact Hwf].
    destruct (save _ _) as [st'|e] eqn:Hs; simpl; [|exact Hwf].
    destruct (mergeOne_keeps _ _ _ H1) as (_ & Hg1 & _).
    destruct (mergeLoop_keeps _ _ _ H2) as (_ & Hg2 & _). simpl in Hg1.
    apply findById_In in Hf.
    refine (WellFormed_save st st' ld _ (gen acc) Hwf Hf _ _ _ _ Hs); auto. lia.
  - unfold updateItem. destruct upd as [upd|]; simpl; [|exact Hwf].
    destruct (negb (truthy (u_name upd)) || looseNull (u_quantity upd)
              || negb (truthy (u_unit upd))); simpl; [exact Hwf|].
    destruct (findById l st) as [ld|] eqn:Hf; simpl; [|exact Hwf].
    match goal with |- context [if ?b then _ else _] => destruct b end; simpl; [exact Hwf|].
    destruct (itemById i (l_items ld)) as [[k item]|]; simpl; [|exact Hwf].
    destruct (save _ st) as [st'|e] eqn:Hs; simpl; [|exact Hwf].
    rewrite <- (withNextId_same st) in Hs. apply findById_In in Hf.
    refine (WellFormed_save st st' ld _ (nextId st) Hwf Hf _ _ _ _ Hs); auto.
Qed.

(** Every sequence of requests to the routes of server.js keeps the
    store well formed: list _ids stay unique, (name, userId) stays
    unique, and the items of every list keep non-empty names that are
    pairwise distinct after lowercasing.  Delete-item writes without
    the save hook and keeps this too. *)
Theorem run_keeps_WellFormed (rs : list Request) (st : State) :
  WellFormed st -> WellFormed (run st rs).
Proof.
  revert st. induction rs as [|r rs IH]; simpl; intros st Hwf; [exact Hwf|].
  apply IH. now apply handle_WellFormed.
Qed.

(** From a store without lists: a list is created with "milk" and
    "Eggs", "eggs" is merged, an item is deleted, one is toggled. *)
Lemma run_keeps_WellFormed_witness :
  WellFormed
    (run noLists
       [AddList bob 10 (Some "Weekly") (Some [DString "milk"; DString "Eggs"]);
        UpdateList alice 100 (Some [DString "eggs"; DString "rice"]);
        DeleteItem bob 100 101;
        Toggle alice 102]).
Proof.
  apply run_keeps_WellFormed. constructor; simpl; constructor.
Defined.

(** A request that is answered with anything but 200 or 201 writes
    nothing: the store after it is the store before it. *)
Theorem handle_error_writes_nothing (st : State) (r : Request) :
  status (handle st r).1 <> 200%nat -> status (handle st r).1 <> 201%nat ->
  (handle st r).2 = st.
Proof.
  destruct r as [u c|u c|u c name items|u l|u l i|u i|u l items|u l i upd]; simpl.
  - reflexivity.
  - intros H. contradiction H. reflexivity.
  - unfold addList. destruct items as [[|d ds]|]; try reflexivity.
    destruct (negb (truthy name)); [reflexivity|].
    destruct (bind _ _) as [[nl st1]|e]; simpl; [congruence|].
    destruct e; reflexivity.
  - unfold deleteList. destruct (findById l st); simpl; [congruence | reflexivity].
  - unfold deleteItem. destruct (List.find _ (lists st)); simpl; [congruence | reflexivity].
  - unfold toggle. destruct (List.find _ (lists st)) as [ld|]; [|reflexivity].
    destruct (itemById i (l_items ld)) as [[k item]|]; [|reflexivity].
    destruct (bind _ _) as [[it st1]|e]; simpl; [congruence | reflexivity].
  - intros H _. now apply updatelist_writes_only_on_200.
  - unfold updateItem. destruct upd as [upd|]; [|reflexivity].
    destruct (_ || _ || _); [reflexivity|].
    destruct (findById l st) as [ld|]; [|reflexivity].
    match goal with |- context [if ?b then _ else _] => destruct b end; [reflexivity|].
    destruct (itemById i (l_items ld)) as [[k item]|]; [|reflexivity].
    destruct (save _ st); simpl; [congruence | reflexivity].
Qed.

(** A merge with a unit conflict, and a toggle of an unknown item. *)
Lemma handle_error_writes_nothing_witness :
  (handle bobStore
     (UpdateList bob 20 (Some [DString "eggs"; DObject (Some "Milk") NAbsent (Some "gal")]))).2
  = bobStore
  /\ (handle bobStore (Toggle bob 77)).2 = bobStore.
Proof.
  split; apply handle_error_writes_nothing; simpl; lia.
Defined.

End StoreInvariant.

(* ================================================================== *)
(** ** Lists: create, fetch, delete *)
(* ================================================================== *)

Section Lists.
Import Api Scenario.

Lemma find_and {A} (p q : A -> bool) (l : list A) (x : A) :
  List.find p l = Some x -> q x = true ->
  List.find (fun y => p y && q y) l = Some x.
Proof.
  induction l as [|a r IH]; simpl; [discriminate|].
  destruct (p a) eqn:Ea; simpl.
  - intros [= ->] Hq. now rewrite Hq.
  - auto.
Qed.

Lemma find_replaceFirst {A} (p : A -> bool) (y : A) (l : list A) (x : A) :
  List.find p l = Some x -> p y = true -> List.find p (replaceFirst p y l) = Some y.
Proof.
  induction l as [|a r IH]; simpl; [discriminate|].
  destruct (p a) eqn:Ea; simpl; intros H Hy.
  - now rewrite Hy.
  - rewrite Ea. auto.
Qed.

(** Delete-item on a list of the user answers 200 whether or not the
    list holds the item.  The stored and returned list has exactly
    the items of the old one whose _id is not the given one; when no
    item has that _id the items are the same as before. *)
Theorem deleteItem_own (st : State) (userId listId itemId : ObjectId) (l : ListDoc) :
  findById listId st = Some l -> l_userId l = userId ->
  exists l',
    (deleteItem st userId listId itemId).1
    = mkResponse 200 (ListData "Item deleted successfully" l')
    /\ findById listId (deleteItem st userId listId itemId).2 = Some l'
    /\ (forall it, In it (l_items l') <-> In it (l_items l) /\ i_id it <> itemId)
    /\ ((forall it, In it (l_items l) -> i_id it <> itemId) -> l_items l' = l_items l).
Proof.
  intros Hfind Huser.
  pose proof (findById_id _ _ _ Hfind) as Hid.
  assert (Hsel : List.find (fun x => Nat.eqb (l_id x) listId && Nat.eqb (l_userId x) userId)
                   (lists st) = Some l).
  { apply find_and; [exact Hfind | now apply Nat.eqb_eq]. }
  unfold deleteItem. rewrite Hsel. cbn [fst snd].
  set (l' := set_items l _). exists l'. split; [reflexivity|]. split.
  - unfold findById. cbn [lists].
    assert (Hl' : Nat.eqb (l_id l') listId && Nat.eqb (l_userId l') userId = true).
    { simpl. apply andb_true_iff. split; now apply Nat.eqb_eq. }
    pose proof (find_replaceFirst _ l' _ _ Hsel Hl') as Hr.
    apply find_some in Hr as [Hin _].
    clear Hl'. revert Hfind Hsel. unfold findById.
    induction (lists st) as [|a r IH]; simpl; [discriminate|].
    destruct (Nat.eqb (l_id a) listId) eqn:Ea; simpl.
    + intros [= ->]. rewrite Huser, Nat.eqb_refl. simpl.
      intros _. now rewrite Hid, Nat.eqb_refl.
    + intros H1 H2. rewrite Ea. apply IH; auto.
      simpl in Hin. rewrite Ea in Hin. simpl in Hin. destruct Hin as [E|Hin]; [|exact Hin].
      subst a. simpl in Ea. rewrite Hid, Nat.eqb_refl in Ea. discriminate.
  - split.
    + intros it. simpl. rewrite filter_In, negb_true_iff, Nat.eqb_neq. reflexivity.
    + intros Hnone. simpl. induction (l_items l) as [|a r IH]; simpl; [reflexivity|].
      assert (Ha : Nat.eqb (i_id a) itemId = false).
      { apply Nat.eqb_neq, Hnone. now left. }
      rewrite Ha. simpl. f_equal. apply IH. intros it Hit. apply Hnone. now right.
Qed.

(** Bob deletes item 77, which his list does not have. *)
Lemma deleteItem_own_witness :
  exists l',
    (deleteItem bobStore bob 20 77).1
    = mkResponse 200 (ListData "Item deleted successfully" l')
    /\ l_items l' = [mkItem 30 "milk" 1 "L" false].
Proof.
  destruct (deleteItem_own bobStore bob 20 77
              (mkList 20 "Weekly" 10 bob [mkItem 30 "milk" 1 "L" false]) eq_refl eq_refl)
    as (l' & Hr & _ & _ & Hsame).
  exists l'. split; [exact Hr|]. apply Hsame.
  intros it [<-|[]]. simpl. lia.
Defined.

(** Alice asks to delete an item of bob's list. *)
Lemma deleteItem_scoped_witness :
  deleteItem bobStore alice 20 30
  = (mkResponse 404 (ErrorBody "List not found or item not found"), bobStore).
Proof.
  apply deleteItem_scoped. intros l [<-|[]] _. simpl. discriminate.
Defined.

(** The merge of "eggs" and of "Milk" in gal into bob's list, where
    "milk" is stored in L. *)
Lemma updatelist_conflicts_rejected_witness :
  updatelist bobStore bob 20
    (Some [DString "eggs"; DObject (Some "Milk") NAbsent (Some "gal")])
  = (mkResponse 400
       (ConflictBody "Unit conflict detected for items:[object Object]"
          [mkConflict "Milk" "L" "gal"]),
     bobStore).
Proof.
  apply (updatelist_conflicts_rejected bobStore bob 20
           (DString "eggs") [DObject (Some "Milk") NAbsent (Some "gal")]
           (mkList 20 "Weekly" 10 bob [mkItem 30 "milk" 1 "L" false])
           (mkAcc [mkItem 30 "milk" 1 "L" false; mkItem 100 "eggs" 1 "pcs" false]
                  [mkConflict "Milk" "L" "gal"] 101)).
  - reflexivity.
  - reflexivity.
  - discriminate.
Defined.

(** The unique index is on (name, userId): a list-creation request
    that is well formed and whose items would pass the save checks is
    answered 409, and nothing is written, when the user has a list of
    that name, in whatever category. *)
Theorem addList_name_taken (st : State) (userId categoryId : ObjectId)
    (n : string) (d : Descriptor) (ds : list Descriptor) (fs : list Formatted)
    (l : ListDoc) :
  n <> EmptyString ->
  mapM formatNew (d :: ds) = Ok fs ->
  guarded (cast (S (nextId st)) fs) ->
  In l (lists st) -> l_name l = n -> l_userId l = userId ->
  addList st userId categoryId (Some n) (Some (d :: ds))
  = (mkResponse 409
       (ErrorBody "A list with this name already exists in the selected category."),
     st).
Proof.
  intros Hne Hm Hg Hin Hname Huser. unfold addList.
  assert (Ht : truthy (Some n) = true) by (destruct n; [contradiction | reflexivity]).
  assert (En : orDefault (Some n) "" = n) by (destruct n; [contradiction | reflexivity]).
  rewrite Ht, En, Hm. cbn [negb bind]. unfold insert. cbn [l_items l_name l_userId].
  apply beforeSave_guarded in Hg. rewrite Hg. cbn [bind lists withNextId].
  replace (existsb _ (lists st)) with true; [reflexivity|].
  symmetry. apply existsb_exists. exists l. split; [exact Hin|].
  apply andb_true_iff. split; [now apply String.eqb_eq | now apply Nat.eqb_eq].
Qed.

(** Bob has "Weekly" in category 10 and asks for "Weekly" in 11. *)
Lemma addList_name_taken_witness :
  addList bobStore bob 11 (Some "Weekly") (Some [DString "rice"])
  = (mkResponse 409
       (ErrorBody "A list with this name already exists in the selected category."),
     bobStore).
Proof.
  apply (addList_name_taken bobStore bob 11 "Weekly" (DString "rice") []
           [mkFormatted "rice" 1 "pcs" false]
           (mkList 20 "Weekly" 10 bob [mkItem 30 "milk" 1 "L" false])).
  - discriminate.
  - reflexivity.
  - split; [constructor; [discriminate | constructor] | apply NoDup_singleton].
  - simpl. left. reflexivity.
  - reflexivity.
  - reflexivity.
Defined.

(** A list that was created is what fetch-lists then returns for its
    user and category, after the lists that were there; for another
    user, or another category, the answer of fetch-lists is as before
    the creation. *)
Theorem addList_then_fetchLists (st st' : State) (userId categoryId : ObjectId)
    (name : option string) (items : option (list Descriptor))
    (msg : string) (newList : ListDoc) :
  addList st userId categoryId name items
  = (mkResponse 201 (ListData msg newList), st') ->
  (fetchLists st' userId categoryId).1
  = mkResponse 200
      (ListsData (List.filter (fun l => Nat.eqb (l_categoryId l) categoryId
                                        && Nat.eqb (l_userId l) userId) (lists st)
                  ++ [newList]))
  /\ (forall u c, (u, c) <> (userId, categoryId) ->
        (fetchLists st' u c).1 = (fetchLists st u c).1).
Proof.
  intros Ha.
  destruct (addList_201 _ _ _ _ _ _ _ Ha eq_refl)
    as (n & ds & fs & _ & _ & _ & _ & _ & _ & _ & Hr & ->).
  injection Hr as _ ->. unfold fetchLists. cbn [fst lists]. split.
  - rewrite List.filter_app. simpl. now rewrite !Nat.eqb_refl.
  - intros u c Hne. rewrite List.filter_app. simpl.
    destruct (Nat.eqb_spec categoryId c) as [Ec|Ec];
      destruct (Nat.eqb_spec userId u) as [Eu|Eu]; simpl;
      try (now rewrite List.app_nil_r).
    subst. contradiction.
Qed.

Lemma addList_then_fetchLists_witness :
  (fetchLists (addList bobStore bob 10 (Some "Party") (Some [DString "cake"])).2 bob 10).1
  = mkResponse 200
      (ListsData [mkList 20 "Weekly" 10 bob [mkItem 30 "milk" 1 "L" false];
                  mkList 100 "Party" 10 bob [mkItem 101 "cake" 1 "pcs" false]]).
Proof.
  exact (proj1 (addList_then_fetchLists bobStore _ bob 10 (Some "Party")
                  (Some [DString "cake"]) _ _ eq_refl)).
Defined.

Lemma deleteFirst_app_fresh {A} (p : A -> bool) (l : list A) (x : A) :
  (forall y, In y l -> p y = false) -> p x = true -> deleteFirst p (l ++ [x]) = l.
Proof.
  intros Hl Hx. induction l as [|a r IH]; simpl.
  - now rewrite Hx.
  - rewrite (Hl a (or_introl eq_refl)). f_equal. apply IH. intros y Hy. apply Hl. now right.
Qed.

Lemma find_app_fresh {A} (p : A -> bool) (l r : list A) :
  (forall y, In y l -> p y = false) -> List.find p (l ++ r) = List.find p r.
Proof.
  intros Hl. induction l as [|a t IH]; simpl; [reflexivity|].
  rewrite (Hl a (or_introl eq_refl)). apply IH. intros y Hy. apply Hl. now right.
Qed.

(** Creating a list and deleting it again, by the _id of the answer,
    gives back the two collections as they were. *)
Theorem addList_then_deleteList (st st' : State) (userId categoryId u : ObjectId)
    (name : option string) (items : option (list Descriptor))
    (msg : string) (newList : ListDoc) :
  WellFormed st ->
  addList st userId categoryId name items
  = (mkResponse 201 (ListData msg newList), st') ->
  (deleteList st' u (l_id newList)).1
  = mkResponse 200 (NoData "List deleted successfully")
  /\ lists (deleteList st' u (l_id newList)).2 = lists st
  /\ categories (deleteList st' u (l_id newList)).2 = categories st.
Proof.
  intros [_ Hfr _ _] Ha.
  destruct (addList_201 _ _ _ _ _ _ _ Ha eq_refl)
    as (n & ds & fs & _ & _ & _ & _ & _ & _ & _ & Hr & ->).
  injection Hr as _ ->. cbn [l_id].
  assert (Hfresh : forall y, In y (lists st) -> Nat.eqb (l_id y) (nextId st) = false).
  { intros y Hy. rewrite List.Forall_forall in Hfr. specialize (Hfr y Hy). simpl in Hfr.
    apply Nat.eqb_neq. lia. }
  unfold deleteList, findById. cbn [lists categories].
  rewrite find_app_fresh by exact Hfresh.
  simpl. rewrite Nat.eqb_refl. simpl.
  rewrite deleteFirst_app_fresh; auto. simpl. apply Nat.eqb_refl.
Qed.

Lemma addList_then_deleteList_witness :
  lists (deleteList (addList bobStore bob 10 (Some "Party") (Some [DString "cake"])).2
           alice 100).2
  = lists bobStore.
Proof.
  refine (proj1 (proj2 (addList_then_deleteList bobStore _ bob 10 alice (Some "Party")
                          (Some [DString "cake"]) _ _ _ eq_refl))).
  unfold bobStore. constructor; simpl.
  - apply NoDup_singleton.
  - constructor; [simpl; lia | constructor].
  - apply NoDup_singleton.
  - constructor; [|constructor]. split.
    + constructor; [discriminate | constructor].
    + apply NoDup_singleton.
Defined.

End Lists.

(* ================================================================== *)
(** ** Items: toggle and update *)
(* ================================================================== *)

Section Items.
Import Api Scenario.

Lemma itemById_Some (itemId : ObjectId) (items : list Item) (k : nat) (item : Item) :
  itemById itemId items = Some (k, item) ->
  findIndex (fun it => Nat.eqb (i_id it) itemId) items = Some k
  /\ items !! k = Some item /\ i_id item = itemId.
Proof.
  unfold itemById. destruct (findIndex _ items) as [j|] eqn:Ej; [|discriminate].
  destruct (items !! j) as [it|] eqn:Hj; simpl; [|discriminate].
  intros [= <- <-]. destruct (findIndex_Some_lookup _ _ _ Ej) as (x & Hx & Hp).
  assert (x = it) by congruence. subst x. apply Nat.eqb_eq in Hp. auto.
Qed.

Lemma findIndex_insert {A} (p : A -> bool) (l : list A) (k : nat) (x y : A) :
  l !! k = Some x -> p y = p x -> findIndex p (<[k:=y]> l) = findIndex p l.
Proof.
  revert k. induction l as [|a r IH]; intros k Hk Hp; [reflexivity|].
  destruct k as [|k]; simpl in *.
  - injection Hk as ->. now rewrite Hp.
  - destruct (p a); [reflexivity|]. now rewrite (IH k Hk Hp).
Qed.

Lemma itemById_insert (itemId : ObjectId) (items : list Item) (k : nat) (item item' : Item) :
  itemById itemId items = Some (k, item) -> i_id item' = i_id item ->
  itemById itemId (<[k:=item']> items) = Some (k, item').
Proof.
  intros H Hid. apply itemById_Some in H as (Hf & Hk & _). unfold itemById.
  rewrite (findIndex_insert _ _ _ item item' Hk) by now rewrite Hid.
  rewrite Hf, list_lookup_insert_eq by (eapply lookup_lt_Some; eauto). reflexivity.
Qed.

Lemma find_replace_by_id (P : ListDoc -> bool) (ls : list ListDoc) (ld doc : ListDoc) :
  NoDup (map l_id ls) -> List.find P ls = Some ld -> P doc = true ->
  l_id doc = l_id ld ->
  List.find P (replaceFirst (fun x => Nat.eqb (l_id x) (l_id doc)) doc ls) = Some doc.
Proof.
  intros Hnd Hf Hp Hid. induction ls as [|a r IH]; simpl in *; [discriminate|].
  apply NoDup_cons in Hnd as [Hna Hnd].
  destruct (P a) eqn:Ea.
  - injection Hf as ->. rewrite Hid, Nat.eqb_refl. simpl. now rewrite Hp.
  - destruct (Nat.eqb_spec (l_id a) (l_id doc)) as [E|E]; simpl.
    + exfalso. apply Hna. apply find_some in Hf as [Hin _].
      rewrite E, Hid. apply list_elem_of_In, List.in_map, Hin.
    + rewrite Ea. auto.
Qed.

Lemma replaceFirst_back (ls : list ListDoc) (ld doc : ListDoc) :
  NoDup (map l_id ls) -> In ld ls -> l_id doc = l_id ld ->
  replaceFirst (fun x => Nat.eqb (l_id x) (l_id ld)) ld
    (replaceFirst (fun x => Nat.eqb (l_id x) (l_id doc)) doc ls) = ls.
Proof.
  intros Hnd Hin Hid. rewrite Hid. induction ls as [|a r IH]; simpl in *; [reflexivity|].
  apply NoDup_cons in Hnd as [Hna Hnd].
  destruct (Nat.eqb_spec (l_id a) (l_id ld)) as [E|E]; simpl.
  - rewrite Hid, Nat.eqb_refl. f_equal. destruct Hin as [H|H]; [now symmetry|].
    exfalso. apply Hna. rewrite E. apply list_elem_of_In, List.in_map, H.
  - destruct (Nat.eqb_spec (l_id a) (l_id ld)); [contradiction|]. f_equal.
    destruct Hin as [H|H]; [congruence | auto].
Qed.

Lemma guarded_names (a b : list Item) :
  map i_name a = map i_name b -> guarded a -> guarded b.
Proof.
  intros Hn [Hne Hnd]. split.
  - apply List.Forall_forall. intros it Hit.
    assert (Hin : In (i_name it) (map i_name a)) by (rewrite Hn; now apply List.in_map).
    apply List.in_map_iff in Hin as (it' & E & Hit'). rewrite <- E.
    rewrite List.Forall_forall in Hne. now apply Hne.
  - unfold itemNames in *.
    assert (E : forall l, map (fun item => toLowerCase (i_name item)) l
                          = map toLowerCase (map i_name l))
      by (intros l; now rewrite List.map_map).
    rewrite E in *. now rewrite <- Hn.
Qed.

(** Toggling an item twice gives back the store: when list _ids are
    unique and a toggle is answered 200, the same toggle on the
    resulting store is answered 200 as well and restores the store
    from before the first one. *)
Theorem toggle_twice (st st1 : State) (u v itemId : ObjectId) (r : Response) :
  NoDup (map l_id (lists st)) ->
  toggle st u itemId = (r, st1) -> status r = 200%nat ->
  status (toggle st1 v itemId).1 = 200%nat /\ (toggle st1 v itemId).2 = st.
Proof.
  intros Hnd. unfold toggle at 1.
  destruct (List.find _ (lists st)) as [ld|] eqn:Hf; [|intros [= <- _]; discriminate].
  destruct (itemById itemId (l_items ld)) as [[k item]|] eqn:Hi;
    [|intros [= <- _]; discriminate].
  set (item' := mkItem _ _ _ _ _).
  destruct (save _ st) as [st'|e] eqn:Hs; simpl; [|intros [= <- _]; discriminate].
  intros [= _ <-] _. apply save_Ok in Hs as [Hg ->].
  set (doc := set_items ld (<[k:=item']> (l_items ld))) in *.
  pose proof (itemById_Some _ _ _ _ Hi) as (_ & Hk & Hid).
  pose proof (itemById_insert itemId (l_items ld) k item item' Hi eq_refl) as Hi'.
  assert (HP : existsb (fun it => Nat.eqb (i_id it) itemId) (l_items doc) = true).
  { apply existsb_exists. exists item'. split.
    - apply list_elem_of_In, list_elem_of_lookup. exists k. simpl.
      apply list_lookup_insert_eq. eapply lookup_lt_Some; eauto.
    - simpl. now apply Nat.eqb_eq. }
  unfold toggle. cbn [lists].
  rewrite (find_replace_by_id _ (lists st) ld doc Hnd Hf HP eq_refl).
  cbn [l_items doc set_items]. rewrite Hi'.
  assert (Eitems : <[k:=mkItem (i_id item') (i_name item') (i_quantity item')
                          (i_unit item') (negb (i_isCompleted item'))]>
                     (<[k:=item']> (l_items ld)) = l_items ld).
  { rewrite list_insert_insert_eq. apply list_insert_id. rewrite Hk. f_equal.
    destruct item. simpl. now rewrite negb_involutive. }
  rewrite Eitems.
  assert (Eld : set_items doc (l_items ld) = ld) by (destruct ld; reflexivity).
  rewrite Eld.
  assert (Hgld : guarded (l_items ld)).
  { eapply guarded_names; [|exact Hg]. simpl. change (map i_name) with (fmap (M:=list) i_name).
    rewrite list_fmap_insert. apply list_insert_id. rewrite list_lookup_fmap, Hk. reflexivity. }
  unfold save. rewrite (proj2 (beforeSave_guarded _) Hgld). cbn [bind fst snd status lists].
  split; [reflexivity|]. cbn [categories nextId].
  apply find_some in Hf as [Hin _].
  rewrite (replaceFirst_back (lists st) ld doc Hnd Hin eq_refl). destruct st; reflexivity.
Qed.

Lemma toggle_twice_witness :
  (toggle (toggle bobStore alice 30).2 bob 30).2 = bobStore.
Proof.
  apply (proj2 (toggle_twice bobStore _ alice bob 30 _
                  ltac:(apply NoDup_singleton) eq_refl eq_refl)).
Defined.

(** An update that is answered 200 changes one item of the list and
    nothing else: the item with the given _id gets the name as sent
    (untrimmed), the quantity as sent (any number, zero and negative
    ones too) and the unit as sent, and keeps its _id and completion
    flag; the other items, their order and their number stay.  The
    answer carries the list as it is stored. *)
Theorem updateItem_changes_one_item (st : State) (userId listID itemID : ObjectId)
    (updatedItem : option ItemUpdate) :
  status (updateItem st userId listID itemID updatedItem).1 = 200%nat ->
  exists list k old n q unit,
    findById listID st = Some list
    /\ l_items list !! k = Some old /\ i_id old = itemID
    /\ updatedItem = Some (mkItemUpdate (Some n) (NNum q) (Some unit))
    /\ let list' := set_items list
                      (<[k:=mkItem itemID n q unit (i_isCompleted old)]> (l_items list)) in
       (updateItem st userId listID itemID updatedItem).1
       = mkResponse 200 (ListData "Item updated successfully" list')
       /\ findById listID (updateItem st userId listID itemID updatedItem).2 = Some list'.
Proof.
  unfold updateItem. destruct updatedItem as [[name q unit]|]; [|discriminate].
  cbn [u_name u_quantity u_unit].
  destruct (truthy name) eqn:Hn; [|discriminate].
  destruct q as [| |q]; try (simpl; destruct (truthy unit); discriminate).
  destruct (truthy unit) eqn:Hu; [|discriminate]. cbn [negb orb looseNull].
  destruct name as [n|]; [|discriminate]. destruct unit as [un|]; [|discriminate].
  assert (En : orDefault (Some n) "" = n) by (destruct n; [discriminate | reflexivity]).
  assert (Eu : orDefault (Some un) "" = un) by (destruct un; [discriminate | reflexivity]).
  rewrite En, Eu.
  destruct (findById listID st) as [list|] eqn:Hf; [|discriminate].
  match goal with |- context [if ?b then _ else _] => destruct b end; [discriminate|].
  destruct (itemById itemID (l_items list)) as [[k old]|] eqn:Hi; [|discriminate].
  apply itemById_Some in Hi as (_ & Hk & Hid). cbn [numValue].
  destruct (save _ st) as [st'|e] eqn:Hs; [|discriminate].
  intros _. exists list, k, old, n, q, un. subst itemID.
  split; [reflexivity|]. split; [exact Hk|]. split; [reflexivity|]. split; [reflexivity|].
  cbn zeta. cbn [fst snd]. split; [reflexivity|].
  apply save_Ok in Hs as [_ ->].
  apply (findById_saved listID st list); [exact Hf|].
  simpl. now apply findById_id in Hf.
Qed.

(** Bob sets the quantity of his milk to 0. *)
Lemma updateItem_changes_one_item_witness :
  exists list',
    (updateItem bobStore bob 20 30 (Some (mkItemUpdate (Some " Milk") (NNum 0) (Some "L")))).1
    = mkResponse 200 (ListData "Item updated successfully" list')
    /\ l_items list' = [mkItem 30 " Milk" 0 "L" false].
Proof.
  destruct (updateItem_changes_one_item bobStore bob 20 30
              (Some (mkItemUpdate (Some " Milk") (NNum 0) (Some "L"))) eq_refl)
    as (list & k & old & n & q & unit & Hf & Hk & _ & Hu & Hr & _).
  injection Hf as <-. injection Hu as <- <- <-. eexists. split; [exact Hr|].
  destruct k as [|k]; simpl in Hk.
  - injection Hk as <-. reflexivity.
  - destruct k; discriminate.
Defined.

End Items.

(* ================================================================== *)
(** ** Merge and creation side by side; a merge that must succeed *)
(* ================================================================== *)

Section MergeSaves.
Import Api Scenario.

(** Merge and list creation on the same descriptor.
    - Whatever the merge formats, list creation formats too, with the
      same quantity, unit and completion flag; the one difference is
      the name, which the merge trims and list creation stores as
      sent.
    - The merge skips a descriptor exactly when list creation rejects
      it with "Invalid item format".
    - A descriptor on which list creation raises a TypeError makes the
      merge raise one too.
    The first point has no converse in the code: the merge calls
    [trim] on the name and list creation does not, so a name on which
    that call fails is formatted by list creation only. *)
Theorem formatters_agree_up_to_trim (d : Descriptor) :
  (forall f, formatMerge d = Ok (Some f) ->
     exists f', formatNew d = Ok f'
       /\ f = mkFormatted (trim (f_name f')) (f_quantity f') (f_unit f') (f_isCompleted f'))
  /\ (formatMerge d = Ok None <-> formatNew d = Throw InvalidItemFormat)
  /\ (formatNew d = Throw TypeError -> formatMerge d = Throw TypeError).
Proof.
  destruct d as [s|[n|] q u| | | |]; simpl.
  - split; [intros f [= <-]; eauto|]. split; [split; discriminate | discriminate].
  - destruct (isEmpty n).
    + split; [discriminate|]. split; [split; reflexivity | discriminate].
    + split; [intros f [= <-]; eauto|]. split; [split; discriminate | discriminate].
  - split; [discriminate|]. split; [split; reflexivity | discriminate].
  - split; [discriminate|]. split; [split; discriminate | reflexivity].
  - split; [discriminate|]. split; [split; reflexivity | discriminate].
  - split; [discriminate|]. split; [split; reflexivity | discriminate].
  - split; [discriminate|]. split; [split; reflexivity | discriminate].
Qed.

(** [{name: " Milk ", quantity: 2, unit: "L"}]: the merge stores
    "Milk", list creation " Milk ". *)
Lemma formatters_agree_up_to_trim_witness :
  exists f', formatNew (DObject (Some " Milk ") (NNum 2) (Some "L")) = Ok f'
    /\ f_name f' = " Milk "
    /\ mkFormatted "Milk" 2 "L" false
       = mkFormatted (trim (f_name f')) (f_quantity f') (f_unit f') (f_isCompleted f').
Proof.
  destruct (proj1 (formatters_agree_up_to_trim (DObject (Some " Milk ") (NNum 2) (Some "L")))
              (mkFormatted "Milk" 2 "L" false) eq_refl) as (f' & Hf' & Heq).
  exists f'. split; [exact Hf'|]. split; [|exact Heq].
  injection Hf' as <-. reflexivity.
Defined.

Lemma mergeOne_names (acc acc' : Acc) (d : Descriptor) :
  (forall f, formatMerge d = Ok (Some f) -> f_name f <> EmptyString) ->
  mergeOne acc d = Ok acc' ->
  Forall (fun it => i_name it <> EmptyString) (existingItems acc) ->
  Forall (fun it => i_name it <> EmptyString) (existingItems acc').
Proof.
  intros Hd. unfold mergeOne.
  destruct (formatMerge d) as [[f|]|e] eqn:Hf; simpl; try discriminate.
  2:{ now intros [= <-]. }
  intros Hr Hall.
  destruct (reconcile_cases acc acc' f Hr)
    as [(i & it & Hi & _ & _ & ->) | [(j & it & _ & _ & _ & ->) | (_ & ->)]]; simpl.
  - apply Forall_insert; [exact Hall|]. simpl.
    rewrite List.Forall_forall in Hall. apply Hall.
    apply list_elem_of_In, list_elem_of_lookup. eauto.
  - exact Hall.
  - apply List.Forall_app. split; [exact Hall|].
    constructor; [simpl; now apply Hd | constructor].
Qed.

Lemma mergeLoop_names (ds : list Descriptor) (acc acc' : Acc) :
  (forall d f, In d ds -> formatMerge d = Ok (Some f) -> f_name f <> EmptyString) ->
  mergeLoop acc ds = Ok acc' ->
  Forall (fun it => i_name it <> EmptyString) (existingItems acc) ->
  Forall (fun it => i_name it <> EmptyString) (existingItems acc').
Proof.
  revert acc. induction ds as [|d ds IH]; simpl; intros acc Hd.
  - now intros [= <-].
  - destruct (mergeOne acc d) as [acc1|e] eqn:H1; simpl; [|discriminate].
    intros H2 Hall. apply (IH acc1).
    + intros d' f Hin. apply Hd. now right.
    + exact H2.
    + apply (mergeOne_names acc acc1 d); [|exact H1 | exact Hall].
      intros f. apply Hd. now left.
Qed.

(** For a batch whose descriptors have fields of the schema's types
    (the descriptors of this model): on a list whose items have
    non-empty names and pairwise distinct keys, a batch without blank
    names on which the loop ends without a conflict is always saved:
    the answer is 200 with the merged items, and the required-name
    validation and the pre-save hook cannot refuse it. *)
Theorem updatelist_saves (st : State) (userId listID : ObjectId)
    (d0 : Descriptor) (ds : list Descriptor) (list : ListDoc) (acc : Acc) :
  findById listID st = Some list ->
  Forall (fun it => i_name it <> EmptyString) (l_items list) ->
  NoDup (itemKeys (l_items list)) ->
  (forall d f, In d (d0 :: ds) -> formatMerge d = Ok (Some f) -> f_name f <> EmptyString) ->
  mergeLoop (mkAcc (l_items list) [] (nextId st)) (d0 :: ds) = Ok acc ->
  unitConflicts acc = [] ->
  let updatedList := set_items list (existingItems acc) in
  (updatelist st userId listID (Some (d0 :: ds))).1
  = mkResponse 200 (ListData "List updated successfully" updatedList)
  /\ findById listID (updatelist st userId listID (Some (d0 :: ds))).2 = Some updatedList.
Proof.
  intros Hf Hne Hnd Hd Hloop Hc updatedList.
  assert (Hg : guarded (existingItems acc)).
  { split.
    - apply (mergeLoop_names _ _ _ Hd Hloop Hne).
    - destruct (mergeLoop_keeps _ _ _ Hloop) as (_ & _ & Hk & _).
      specialize (Hk Hnd). rewrite itemKeys_itemNames in Hk. now apply NoDup_fmap_1 in Hk. }
  unfold updatelist. rewrite Hf, Hloop, Hc. fold updatedList.
  unfold save. cbn [l_items updatedList set_items].
  rewrite (proj2 (beforeSave_guarded _) Hg). cbn [bind fst snd].
  split; [reflexivity|].
  apply (findById_saved listID (withNextId st (gen acc)) list); [exact Hf|].
  simpl. now apply findById_id in Hf.
Qed.

Lemma updatelist_saves_witness :
  (updatelist bobStore bob 20 (Some [DObject (Some " Milk ") (NNum 2) (Some "L");
                                     DString "eggs"])).1
  = mkResponse 200
      (ListData "List updated successfully"
         (mkList 20 "Weekly" 10 bob
            [mkItem 30 "milk" 3 "L" false; mkItem 100 "eggs" 1 "pcs" false])).
Proof.
  refine (proj1 (updatelist_saves bobStore bob 20
                   (DObject (Some " Milk ") (NNum 2) (Some "L")) [DString "eggs"]
                   (mkList 20 "Weekly" 10 bob [mkItem 30 "milk" 1 "L" false])
                   (mkAcc [mkItem 30 "milk" 3 "L" false; mkItem 100 "eggs" 1 "pcs" false]
                          [] 101)
                   eq_refl _ _ _ eq_refl eq_refl)).
  - constructor; [discriminate | constructor].
  - vm_compute. apply NoDup_singleton.
  - intros d f [<-|[<-|[]]]; intros [= <-]; discriminate.
Defined.

(** Delete-list removes the list with the given _id and nothing else:
    with unique _ids the list is no longer found, every other list is
    found as before, and the categories are untouched. *)
Theorem deleteList_removes (st : State) (userId listId : ObjectId) (l : ListDoc) :
  NoDup (map l_id (lists st)) ->
  findById listId st = Some l ->
  (deleteList st userId listId).1 = mkResponse 200 (NoData "List deleted successfully")
  /\ findById listId (deleteList st userId listId).2 = None
  /\ (forall other, other <> listId ->
        findById other (deleteList st userId listId).2 = findById other st)
  /\ categories (deleteList st userId listId).2 = categories st.
Proof.
  intros Hnd Hf. unfold deleteList. rewrite Hf. cbn [fst snd categories].
  split; [reflexivity|]. split; [|split; [|reflexivity]].
  - clear Hf. unfold findById. cbn [lists].
    induction (lists st) as [|a r IH]; simpl in *; [reflexivity|].
    apply NoDup_cons in Hnd as [Hna Hnd].
    destruct (Nat.eqb_spec (l_id a) listId) as [E|E]; simpl.
    + apply find_none_iff. intros x Hx. apply Nat.eqb_neq. intros Ex.
      apply Hna. rewrite E, <- Ex. apply list_elem_of_In, List.in_map, Hx.
    + destruct (Nat.eqb_spec (l_id a) listId); [contradiction | auto].
  - intros other Hne. unfold findById. cbn [lists]. clear Hf Hnd.
    induction (lists st) as [|a r IH]; simpl; [reflexivity|].
    destruct (Nat.eqb_spec (l_id a) listId) as [E|E]; simpl.
    + destruct (Nat.eqb_spec (l_id a) other); [congruence | reflexivity].
    + destruct (Nat.eqb (l_id a) other); [reflexivity | exact IH].
Qed.

Lemma deleteList_removes_witness :
  findById 20 (deleteList bobStore alice 20).2 = None.
Proof.
  apply (deleteList_removes bobStore alice 20
           (mkList 20 "Weekly" 10 bob [mkItem 30 "milk" 1 "L" false])
           ltac:(apply NoDup_singleton) eq_refl).
Defined.

End MergeSaves.
